(** * pore_c2.model.AlignData: record splitting and modification re-indexing

    A shallow embedding of [src/pore_c2/model.py].  Python [int] is [Z]
    (loop counters and list indices are [nat]), [str] is [string], [list]
    is [list], the [modified_bases] dict, which the code iterates in
    insertion order, is an association list, and the [base_indices] dict,
    which is only looked up and inserted into, is a [gmap].  Exceptions
    are the [Err] branch of [result].

    Two things the module imports are not part of it and are parameters
    of the embedding: the set [settings.MOD_TAGS], and pysam's decoding of
    a record's modification tags ([to_pysam().modified_bases]). *)

From Stdlib Require Import ZArith Ascii String.
From stdpp Require Import base list strings gmap pretty sorting.

Local Open Scope Z_scope.

(** ** Exceptions *)

Inductive exn : Type :=
| AssertionError
| ValueError (msg : string)
| PysamError (msg : string).

Inductive result (A : Type) : Type :=
| Ok (a : A)
| Err (e : exn).

Arguments Ok {A} a.
Arguments Err {A} e.

Definition bind {A B : Type} (m : result A) (k : A → result B) : result B :=
  match m with
  | Ok a => k a
  | Err e => Err e
  end.

Notation "x ←! m ; k" := (bind m (λ x, k))
  (at level 20, m at level 100, k at level 200, right associativity, only parsing).

(** ** Python built-ins used by the module *)

(** [str(i)] for an [int]. *)
Definition str_of_int (i : Z) : string := pretty i.

(** [str(n)] for a loop counter. *)
Definition str_of_nat (n : nat) : string := pretty n.

(** [sep.join(l)]. *)
Fixpoint join (sep : string) (l : list string) : string :=
  match l with
  | [] => ""
  | [x] => x
  | x :: l' => x +:+ sep +:+ join sep l'
  end.

(** [sorted(l)] on a list of [int]. *)
Definition sorted (l : list Z) : list Z := merge_sort Z.le l.

(** A slice bound [i] of a sequence of length [n], after Python's
    normalisation: a negative bound counts from the end, and the result is
    clamped to [[0, n]]. *)
Definition slice_bound (n i : Z) : Z :=
  if i <? 0 then Z.max (i + n) 0 else Z.min i n.

(** [s[start:stop]] on a [str]. *)
Definition py_slice (s : string) (start stop : Z) : string :=
  let n := Z.of_nat (String.length s) in
  let lo := slice_bound n start in
  let hi := slice_bound n stop in
  String.substring (Z.to_nat lo) (Z.to_nat (hi - lo)) s.

(** [b.upper()] on one character.  Only the letters a-z change: the
    sequences are ASCII. *)
Definition upper (b : ascii) : ascii :=
  let n := nat_of_ascii b in
  if (97 <=? n)%nat && (n <=? 122)%nat then ascii_of_nat (n - 32) else b.

(** [t.split(":", 1)[0]]: the part of [t] before its first colon. *)
Fixpoint tag_key (t : string) : string :=
  match t with
  | EmptyString => EmptyString
  | String c t' => if Ascii.eqb c ":" then EmptyString else String c (tag_key t')
  end.

(** The characters written [\t] and [\n] in the source. *)
Definition tab : string := String "009"%char EmptyString.

Definition newline : string := String "010"%char EmptyString.

(** [c.isspace()] for a character below 256. *)
Definition is_space (c : ascii) : bool :=
  let n := nat_of_ascii c in
  ((9 <=? n)%nat && (n <=? 13)%nat) || ((28 <=? n)%nat && (n <=? 32)%nat)
    || (n =? 133)%nat || (n =? 160)%nat.

(** [s.split()]: the maximal runs of characters that are not whitespace. *)
Fixpoint split_ws (s : string) : list string :=
  match s with
  | EmptyString => []
  | String c s' =>
      if is_space c then split_ws s'
      else match s' with
           | EmptyString => [String c EmptyString]
           | String c' _ =>
               if is_space c' then String c EmptyString :: split_ws s'
               else match split_ws s' with
                    | w :: ws => String c w :: ws
                    | [] => [String c EmptyString]
                    end
           end
  end.

(** [s.lstrip()], [s.rstrip()] and [s.strip()]. *)
Fixpoint lstrip (s : string) : string :=
  match s with
  | EmptyString => EmptyString
  | String c s' => if is_space c then lstrip s' else s
  end.

Fixpoint rstrip (s : string) : string :=
  match s with
  | EmptyString => EmptyString
  | String c s' =>
      match rstrip s' with
      | EmptyString => if is_space c then EmptyString else String c EmptyString
      | r => String c r
      end
  end.

Definition strip (s : string) : string := rstrip (lstrip s).

(** [l[:-1]]. *)
Definition all_but_last {A : Type} (l : list A) : list A := removelast l.

(** ** Decoded modification data, as pysam's [modified_bases] returns it *)

Inductive mod_code : Type :=
| ModChar (c : string)
| ModChebi (c : Z).

Definition str_of_mod_code (m : mod_code) : string :=
  match m with
  | ModChar c => c
  | ModChebi c => str_of_int c
  end.

(** A key is a tuple of three fields, or of four with a skip scheme in
    the third place (the two shapes [get_subread] unpacks). *)
Inductive mod_key : Type :=
| Key3 (canonical_base : string) (strand : Z) (mod_type : mod_code)
| Key4 (canonical_base : string) (strand : Z) (skip_scheme : string)
       (mod_type : mod_code).

Abbreviation mod_data := (list (Z * Z)).

Abbreviation modified_bases_t := (list (mod_key * mod_data)).

Definition unpack_key (k : mod_key) : string * Z * string * mod_code :=
  match k with
  | Key4 canonical_base strand skip_scheme mod_type =>
      (canonical_base, strand, skip_scheme, mod_type)
  | Key3 canonical_base strand mod_type =>
      (canonical_base, strand, "", mod_type)
  end.

(** [mod_key[0]]. *)
Definition key_base (k : mod_key) : string :=
  match k with
  | Key3 b _ _ => b
  | Key4 b _ _ _ => b
  end.

(** ** The interval arithmetic of [split] *)

(** The value of [positions] after lines 35-42. *)
Definition split_positions (read_length : Z) (positions : list Z) : list Z :=
  match positions with
  | [] => [0; read_length]
  | _ =>
      let positions := sorted positions in
      let positions :=
        if bool_decide (head positions ≠ Some 0) then 0 :: positions
        else positions in
      if bool_decide (last positions ≠ Some read_length)
      then positions ++ [read_length]
      else positions
  end.

(** [list(zip(positions[:-1], positions[1:]))]. *)
Definition intervals_of (positions : list Z) : list (Z * Z) :=
  zip (all_but_last positions) (tail positions).

(** ** The modification re-indexing of [get_subread] *)

Definition in_subread (start end_ offset : Z) : bool :=
  (start <=? offset) && (offset <? end_).

(** [[x for x in range(len(mod_data)) if start <= mod_data[x][0] < end]]. *)
Definition select_idx (start end_ : Z) (md : mod_data) : list nat :=
  List.filter
    (λ x, match md !! x with
          | Some (offset, _) => in_subread start end_ offset
          | None => false
          end)
    (seq 0 (length md)).

(** [[mod_data[_] for _ in idx]]. *)
Definition select_pairs (md : mod_data) (idx : list nat) : list (Z * Z) :=
  omap (λ x, md !! x) idx.

(** [[x for x, b in enumerate(seq) if b.upper() == canonical_base]],
    with the enumeration starting at [i]. *)
Fixpoint base_positions_from (i : nat) (s : string) (canonical_base : string)
  : list nat :=
  match s with
  | EmptyString => []
  | String b s' =>
      if String.eqb (String (upper b) EmptyString) canonical_base
      then i :: base_positions_from (S i) s' canonical_base
      else base_positions_from (S i) s' canonical_base
  end.

Definition base_positions (s canonical_base : string) : list nat :=
  base_positions_from 0 s canonical_base.

(** The loop of lines 112-118, from the current value of [counter]. *)
Fixpoint deltas_from (start : Z) (base_offsets : list Z) (indices : list nat)
    (counter : nat) : list string :=
  match indices with
  | [] => []
  | seq_idx :: rest =>
      let orig_idx := Z.of_nat seq_idx + start in
      if bool_decide (orig_idx ∈ base_offsets)
      then str_of_nat counter :: deltas_from start base_offsets rest 0
      else deltas_from start base_offsets rest (S counter)
  end.

Definition strand_sign (strand : Z) : string :=
  if strand =? 0 then "+" else "-".

(** The text appended to [mm_str] for one key (lines 122-125). *)
Definition mm_entry (k : mod_key) (deltas : list string) : string :=
  let '(_, strand, skip_scheme, mod_type) := unpack_key k in
  key_base k +:+ strand_sign strand +:+ str_of_mod_code mod_type +:+ skip_scheme
    +:+ "," +:+ join "," deltas +:+ ";".

(** The text appended to [ml_str] for one key (lines 120 and 126). *)
Definition ml_entry (k : mod_key) (probs : list Z) : string :=
  key_base k +:+ "," +:+ join "," (str_of_int <$> probs) +:+ ";".

(** The state of the loop over [modified_bases.items()]. *)
Record enc_state : Type := EncState {
  mm_str : string;
  ml_str : string;
  base_indices : gmap string (list nat)
}.

(** One iteration of the loop of lines 91-126. *)
Definition encode_item (seq_ : string) (start end_ : Z) (st : enc_state)
    (item : mod_key * mod_data) : result enc_state :=
  let '(k, md) := item in
  let idx := select_idx start end_ md in
  match idx with
  | [] => Ok st
  | _ =>
      let canonical_base := key_base k in
      let '(positions, cache) :=
        match base_indices st !! canonical_base with
        | Some l => (l, base_indices st)
        | None =>
            let l := base_positions seq_ canonical_base in
            (l, <[canonical_base := l]> (base_indices st))
        end in
      let selected := select_pairs md idx in
      let base_offsets := selected.*1 in
      let probs := selected.*2 in
      let deltas := deltas_from start base_offsets positions 0 in
      if bool_decide (length deltas = length probs)
      then Ok {| mm_str := mm_str st +:+ mm_entry k deltas;
                 ml_str := ml_str st +:+ ml_entry k probs;
                 base_indices := cache |}
      else Err AssertionError
  end.

Fixpoint encode_items (seq_ : string) (start end_ : Z) (st : enc_state)
    (items : modified_bases_t) : result enc_state :=
  match items with
  | [] => Ok st
  | item :: rest =>
      st' ←! encode_item seq_ start end_ st item;
      encode_items seq_ start end_ st' rest
  end.

(** The two tags appended by lines 88-128, or none when [modified_bases]
    is [None] or empty. *)
Definition mod_tags (seq_ : string) (start end_ : Z)
    (modified_bases : option modified_bases_t) : result (list string) :=
  match modified_bases with
  | None | Some [] => Ok []
  | Some items =>
      st ←! encode_items seq_ start end_
              {| mm_str := "MM:Z:"; ml_str := "ML:B:"; base_indices := ∅ |}
              items;
      Ok [mm_str st; ml_str st]
  end.

(** ** pysam's [FastxRecord], as [from_fastq] reads it

    The quality of a FASTQ record is a [str]; a FASTA record, whose
    quality is [None], is outside the type. *)

Module FastxRecord.

Record t : Type := mk {
  name : string;
  sequence : string;
  quality : string;
  comment : option string
}.

End FastxRecord.

(** ** The record *)

Module AlignData.

Record t : Type := mk {
  name : string;
  seq : string;
  flag : Z;
  ref_name : string;
  ref_pos : Z;
  map_quality : Z;
  cigar : string;
  next_ref_name : string;
  next_ref_pos : Z;
  length : Z;
  qual : string;
  tags : list string
}.

(** [AlignData(name=..., seq=..., qual=..., tags=...)], the other fields
    at their defaults. *)
Definition make (name seq qual : string) (tags : list string) : t :=
  {| name := name; seq := seq; flag := 4; ref_name := "*"; ref_pos := 0;
     map_quality := 0; cigar := "*"; next_ref_name := "*"; next_ref_pos := 0;
     length := 0; qual := qual; tags := tags |}.

Section WithSettings.

(** [settings.MOD_TAGS], the reserved modification tag keys. *)
Variable MOD_TAGS : gset string.

(** [self.to_pysam().modified_bases]: pysam's decoding of the record's
    modification tags, which may raise. *)
Variable pysam_modified_bases : t → result modified_bases_t.

(** [settings.FASTQ_TAG_RE.match(item)] as a truth value: whether the
    tag pattern matches at the start of [item]. *)
Variable FASTQ_TAG_RE_match : string → bool.

Fixpoint any_mod_tag (ts : list string) : bool :=
  match ts with
  | [] => false
  | t :: ts' => if bool_decide (tag_key t ∈ MOD_TAGS) then true else any_mod_tag ts'
  end.

Definition has_mods (self : t) : bool := any_mod_tag (tags self).

(** The loop of lines 76-82. *)
Fixpoint kept_tags (add_mi_tag : bool) (ts : list string) : list string :=
  match ts with
  | [] => []
  | t :: ts' =>
      let key := tag_key t in
      if bool_decide (key ∈ MOD_TAGS) then kept_tags add_mi_tag ts'
      else if String.eqb key "MI" && add_mi_tag then kept_tags add_mi_tag ts'
      else t :: kept_tags add_mi_tag ts'
  end.

Definition mi_tag (self : t) : string := "MI:Z:" +:+ name self.

Definition xc_tag (start end_ : Z) (subread_index : nat * nat) : string :=
  "Xc:B:i," +:+ str_of_int start +:+ "," +:+ str_of_int end_ +:+ ","
    +:+ str_of_nat subread_index.1 +:+ "," +:+ str_of_nat subread_index.2.

Definition get_subread (self : t) (start end_ : Z) (name : string)
    (add_mi_tag add_xc_tag : bool) (subread_index : option (nat * nat))
    (modified_bases : option modified_bases_t) : result t :=
  let seq_ := py_slice (seq self) start end_ in
  let qual_ := py_slice (qual self) start end_ in
  let tags_ := kept_tags add_mi_tag (tags self) in
  let tags_ := if add_mi_tag then tags_ ++ [mi_tag self] else tags_ in
  let tags_ :=
    match subread_index with
    | Some idx => if add_xc_tag then tags_ ++ [xc_tag start end_ idx] else tags_
    | None => tags_
    end in
  mods ←! mod_tags seq_ start end_ modified_bases;
  Ok (make name seq_ qual_ (tags_ ++ mods)).

Definition subread_name (self : t) (x num_subreads : nat) : string :=
  name self +:+ ":" +:+ str_of_nat (x + 1) +:+ "_" +:+ str_of_nat num_subreads.

(** The loop of lines 50-60, from index [x]. *)
Fixpoint subreads_from (self : t) (num_subreads : nat)
    (modified_bases : option modified_bases_t) (x : nat)
    (intervals : list (Z * Z)) : result (list t) :=
  match intervals with
  | [] => Ok []
  | (start, end_) :: rest =>
      sub ←! get_subread self start end_ (subread_name self x num_subreads)
               true true (Some (x, num_subreads)) modified_bases;
      subs ←! subreads_from self num_subreads modified_bases (S x) rest;
      Ok (sub :: subs)
  end.

Definition read_length (self : t) : Z := Z.of_nat (String.length (seq self)).

(** The [intervals] of line 43. *)
Definition intervals (self : t) (positions : list Z) : list (Z * Z) :=
  intervals_of (split_positions (read_length self) positions).

Definition split (self : t) (positions : list Z) : result (list t) :=
  let intervals := intervals self positions in
  let num_subreads := List.length intervals in
  modified_bases ←!
    (if has_mods self
     then (mb ←! pysam_modified_bases self; Ok (Some mb))
     else Ok None);
  subreads_from self num_subreads modified_bases 0 intervals.

Definition to_fastq (self : t) (with_tags : bool) : result string :=
  let tag_str := if with_tags then join tab (tags self) else "" in
  if String.eqb (qual self) "*"
  then Err (ValueError ("No quality, can't write fastq for " +:+ name self))
  else Ok ("@" +:+ name self +:+ " " +:+ tag_str +:+ newline
             +:+ seq self +:+ newline +:+ "+" +:+ newline
             +:+ qual self +:+ newline).

Definition from_fastq (record : FastxRecord.t) : t :=
  let tags_ :=
    match FastxRecord.comment record with
    | None | Some EmptyString => []
    | Some comment =>
        List.filter (λ item, FASTQ_TAG_RE_match (strip item)) (split_ws comment)
    end in
  make (FastxRecord.name record) (FastxRecord.sequence record)
    (FastxRecord.quality record) tags_.

End WithSettings.

End AlignData.

(** * Vocabulary of the properties *)

(** An offset inside a sequence of length [n], both ends included. *)
Definition in_range (n p : Z) : Prop := 0 ≤ p ≤ n.

(** The positions of the half-open interval [[iv.1, iv.2)], ascending. *)
Definition interval_points (iv : Z * Z) : list Z :=
  (λ i : nat, iv.1 + Z.of_nat i) <$> seq 0 (Z.to_nat (iv.2 - iv.1)).

(** [ivs] tiles [[lo, hi)]: the first interval starts at [lo], every
    interval runs forward, each starts where the one before ends, and the
    last ends at [hi]. *)
Fixpoint tiles (lo hi : Z) (ivs : list (Z * Z)) : Prop :=
  match ivs with
  | [] => lo = hi
  | iv :: rest => iv.1 = lo ∧ iv.1 ≤ iv.2 ∧ tiles iv.2 hi rest
  end.

(** Prepend 0 if absent, append [read_length] if absent. *)
Definition pad_absent (read_length : Z) (positions : list Z) : list Z :=
  let positions :=
    if bool_decide (0 ∈ positions) then positions else 0 :: positions in
  if bool_decide (read_length ∈ positions) then positions
  else positions ++ [read_length].

(** The offsets as the specification words them: sorted, deduplicated,
    then padded. *)
Definition spec_positions (read_length : Z) (positions : list Z) : list Z :=
  pad_absent read_length (remove_dups (sorted positions)).

(** The pairs of [md] whose offset lies in [[start, end_)], in order. *)
Definition pairs_within (start end_ : Z) (md : mod_data) : list (Z * Z) :=
  List.filter (λ p, in_subread start end_ p.1) md.

(** A key survives into the child when some pair of it lies in the
    interval. *)
Definition survives (start end_ : Z) (item : mod_key * mod_data) : bool :=
  match pairs_within start end_ item.2 with
  | [] => false
  | _ => true
  end.

(** The deltas and the probabilities of a key, read off the child
    sequence without the [base_indices] cache. *)
Definition key_deltas (seq_ : string) (start end_ : Z)
    (item : mod_key * mod_data) : list string :=
  deltas_from start (pairs_within start end_ item.2).*1
    (base_positions seq_ (key_base item.1)) 0.

Definition key_probs (start end_ : Z) (item : mod_key * mod_data) : list Z :=
  (pairs_within start end_ item.2).*2.

Definition counts_match (seq_ : string) (start end_ : Z)
    (item : mod_key * mod_data) : bool :=
  bool_decide (length (key_deltas seq_ start end_ item)
               = length (key_probs start end_ item)).

(** The assertion of line 119 holds for the key, or is not reached. *)
Definition item_ok (seq_ : string) (start end_ : Z)
    (item : mod_key * mod_data) : bool :=
  negb (survives start end_ item) || counts_match seq_ start end_ item.

(** The per-key payload of the two tags: one entry per surviving key. *)
Fixpoint mm_payload (seq_ : string) (start end_ : Z) (items : modified_bases_t)
  : string :=
  match items with
  | [] => ""
  | item :: rest =>
      (if survives start end_ item
       then mm_entry item.1 (key_deltas seq_ start end_ item) else "")
        +:+ mm_payload seq_ start end_ rest
  end.

Fixpoint ml_payload (start end_ : Z) (items : modified_bases_t) : string :=
  match items with
  | [] => ""
  | item :: rest =>
      (if survives start end_ item
       then ml_entry item.1 (key_probs start end_ item) else "")
        +:+ ml_payload start end_ rest
  end.

(** Every cached entry of [base_indices] is what line 105 computes. *)
Definition cache_ok (seq_ : string) (cache : gmap string (list nat)) : Prop :=
  ∀ b l, cache !! b = Some l → l = base_positions seq_ b.

(** The assertion of line 119 holds for every key of the child cut at
    [iv] from the sequence [seq_]. *)
Definition mods_ok (seq_ : string) (modified_bases : option modified_bases_t)
    (iv : Z * Z) : bool :=
  match modified_bases with
  | None => true
  | Some items => forallb (item_ok (py_slice seq_ iv.1 iv.2) iv.1 iv.2) items
  end.

(** The modification tags of that child, in closed form. *)
Definition expected_mod_tags (seq_ : string)
    (modified_bases : option modified_bases_t) (iv : Z * Z) : list string :=
  match modified_bases with
  | None | Some [] => []
  | Some items =>
      ["MM:Z:" +:+ mm_payload (py_slice seq_ iv.1 iv.2) iv.1 iv.2 items;
       "ML:B:" +:+ ml_payload iv.1 iv.2 items]
  end.

(** The child [split] builds at zero-based index [x] for the interval
    [iv], in closed form. *)
Definition expected_child (MOD_TAGS : gset string) (self : AlignData.t)
    (num_subreads : nat) (modified_bases : option modified_bases_t)
    (x : nat) (iv : Z * Z) : AlignData.t :=
  AlignData.make
    (AlignData.subread_name self x num_subreads)
    (py_slice (AlignData.seq self) iv.1 iv.2)
    (py_slice (AlignData.qual self) iv.1 iv.2)
    (AlignData.kept_tags MOD_TAGS true (AlignData.tags self)
       ++ [AlignData.mi_tag self; AlignData.xc_tag iv.1 iv.2 (x, num_subreads)]
       ++ expected_mod_tags (AlignData.seq self) modified_bases iv).

(** The modification mapping [split] hands to every child (lines 45-48). *)
Definition decoded (MOD_TAGS : gset string)
    (pysam_modified_bases : AlignData.t → result modified_bases_t)
    (self : AlignData.t) : result (option modified_bases_t) :=
  if AlignData.has_mods MOD_TAGS self
  then match pysam_modified_bases self with
       | Ok mb => Ok (Some mb)
       | Err e => Err e
       end
  else Ok None.

(** The pieces of a text between its newline characters. *)
Fixpoint text_lines (s : string) : list string :=
  match s with
  | EmptyString => [""]
  | String c s' =>
      if Ascii.eqb c "010" then "" :: text_lines s'
      else match text_lines s' with
           | l :: ls => String c l :: ls
           | [] => [String c ""]
           end
  end.

Fixpoint no_newline (s : string) : bool :=
  match s with
  | EmptyString => true
  | String c s' => negb (Ascii.eqb c "010") && no_newline s'
  end.

(** The run lengths that the loop of lines 112-118 prints, as numbers. *)
Fixpoint delta_counts (start : Z) (base_offsets : list Z) (indices : list nat)
    (counter : nat) : list nat :=
  match indices with
  | [] => []
  | seq_idx :: rest =>
      if bool_decide (Z.of_nat seq_idx + start ∈ base_offsets)
      then counter :: delta_counts start base_offsets rest 0
      else delta_counts start base_offsets rest (S counter)
  end.

(** Reading a delta list against the occurrences of the canonical base:
    each delta skips that many occurrences and marks the next one. *)
Fixpoint decode_deltas (positions : list nat) (deltas : list nat) : list nat :=
  match deltas with
  | [] => []
  | d :: ds =>
      match drop d positions with
      | [] => []
      | p :: rest => p :: decode_deltas rest ds
      end
  end.

(** [s.upper()] on the letters a-z. *)
Fixpoint upper_str (s : string) : string :=
  match s with
  | EmptyString => EmptyString
  | String c s' => String (upper c) (upper_str s')
  end.

(** No character of [s] is whitespace. *)
Fixpoint no_space (s : string) : bool :=
  match s with
  | EmptyString => true
  | String c s' => negb (is_space c) && no_space s'
  end.

(** A word as [split_ws] returns them, accepted by the tag pattern. *)
Definition tag_word (FASTQ_TAG_RE_match : string → bool) (t : string) : Prop :=
  t ≠ "" ∧ no_space t = true ∧ FASTQ_TAG_RE_match t = true.

(** The concatenation of a list of strings. *)
Definition cat (l : list string) : string := foldr String.append "" l.

(** * Fixtures *)

(** Modelled from the spec: [settings.MOD_TAGS] is not among the sources;
    the reserved modification-tag set is taken to be the SAM base
    modification tags in both of their spellings. *)
Definition sam_mod_tags : gset string := list_to_set ["Ml"; "ML"; "Mm"; "MM"].

(** A read with quality and no tags. *)
Definition plain_read : AlignData.t :=
  AlignData.make "read1" "AACATGAA" "IIIIIIII" [].

(** A read without quality. *)
Definition bare_read : AlignData.t := AlignData.make "read2" "ACGTA" "*" [].

(** A read whose two C bases, at offsets 2 and 7, are modified. *)
Definition modified_read : AlignData.t :=
  AlignData.make "read3" "AACATGACAA" "IIIIIIIIII"
    ["MM:Z:C+m,0,0;"; "ML:B:C,230,204"].

(** What pysam decodes from the tags of [modified_read]. *)
Definition modified_read_bases (_ : AlignData.t) : result modified_bases_t :=
  Ok [(Key3 "C" 0 (ModChar "m"), [(2, 230); (7, 204)])].

(** The children of [bare_read] cut at offset 2. *)
Definition bare_read_children : list AlignData.t :=
  [AlignData.make "read2:1_2" "AC" "*" ["MI:Z:read2"; "Xc:B:i,0,2,0,2"];
   AlignData.make "read2:2_2" "GTA" "" ["MI:Z:read2"; "Xc:B:i,2,5,1,2"]].

(** The children of [plain_read] cut at offset 4. *)
Definition plain_read_children : list AlignData.t :=
  [AlignData.make "read1:1_2" "AACA" "IIII" ["MI:Z:read1"; "Xc:B:i,0,4,0,2"];
   AlignData.make "read1:2_2" "TGAA" "IIII" ["MI:Z:read1"; "Xc:B:i,4,8,1,2"]].

(** The children of [modified_read] cut at offset 1: the first holds no
    modified base. *)
Definition modified_read_children : list AlignData.t :=
  [AlignData.make "read3:1_2" "A" "I"
     ["MI:Z:read3"; "Xc:B:i,0,1,0,2"; "MM:Z:"; "ML:B:"];
   AlignData.make "read3:2_2" "ACATGACAA" "IIIIIIIII"
     ["MI:Z:read3"; "Xc:B:i,1,10,1,2"; "MM:Z:C+m,0,0;"; "ML:B:C,230,204;"]].

(** Modelled from the spec: [settings.FASTQ_TAG_RE] is not among the
    sources; a tag is encoded as KEY:TYPE:VALUE, taken here as two
    characters, a colon, one character, a colon and a value that is not
    empty. *)
Definition key_type_value_match (t : string) : bool :=
  match t with
  | String _ (String _ (String c1 (String _ (String c2 (String _ _))))) =>
      Ascii.eqb c1 ":" && Ascii.eqb c2 ":"
  | _ => false
  end.

(** A FASTQ record whose comment holds two tags and a word that is none. *)
Definition commented_record : FastxRecord.t :=
  {| FastxRecord.name := "read4"; FastxRecord.sequence := "ACGT";
     FastxRecord.quality := "IIII";
     FastxRecord.comment := Some " RG:Z:lane1  note MI:Z:read0 " |}.

(** A read without bases. *)
Definition empty_read : AlignData.t := AlignData.make "read5" "" "" [].

(** A read whose second base has the quality character "*". *)
Definition star_read : AlignData.t := AlignData.make "read6" "ACGT" "I*II" [].

(** [modified_read] with its bases in lower case. *)
Definition masked_read : AlignData.t :=
  AlignData.make "read3" "aacatgacaa" "IIIIIIIIII"
    ["MM:Z:C+m,0,0;"; "ML:B:C,230,204"].

(** A read with two tags that [key_type_value_match] accepts. *)
Definition tagged_read : AlignData.t :=
  AlignData.make "read4" "ACGT" "IIII" ["RG:Z:lane1"; "MI:Z:read0"].

(** An aligned read with modification tags, stored reverse-complemented:
    its one base is G. *)
Definition reverse_read : AlignData.t :=
  {| AlignData.name := "read7"; AlignData.seq := "G"; AlignData.flag := 16;
     AlignData.ref_name := "chr1"; AlignData.ref_pos := 1;
     AlignData.map_quality := 60; AlignData.cigar := "1M";
     AlignData.next_ref_name := "*"; AlignData.next_ref_pos := 0;
     AlignData.length := 0; AlignData.qual := "I";
     AlignData.tags := ["MM:Z:C+m,0;"; "ML:B:C,200"] |}.

(** A decoding that names the canonical base C at offset 0, where the
    stored sequence of [reverse_read] holds G. *)
Definition reverse_read_bases (_ : AlignData.t) : result modified_bases_t :=
  Ok [(Key3 "C" 1 (ModChar "m"), [(0, 200)])].

(** A decoding that raises. *)
Definition failing_decoder (_ : AlignData.t) : result modified_bases_t :=
  Err (PysamError "malformed modification tag").

(** * Properties *)

(** ** Strings and slices *)

Lemma substring_all (s : string) : String.substring 0 (String.length s) s = s.
Proof. induction s as [|c s IH]; simpl; [done | by rewrite IH]. Qed.

Lemma substring_none (n : nat) (s : string) : String.substring n 0 s = "".
Proof. revert n; induction s as [|c s IH]; intros [|n]; simpl; auto. Qed.

Lemma app_String (c : ascii) (s1 s2 : string) :
  String c s1 +:+ s2 = String c (s1 +:+ s2).
Proof. done. Qed.

Lemma app_empty_l (s : string) : "" +:+ s = s.
Proof. done. Qed.

Lemma app_empty_r (s : string) : s +:+ "" = s.
Proof. induction s as [|c s IH]; [done | by rewrite app_String, IH]. Qed.

Lemma app_assoc_str (s1 s2 s3 : string) : (s1 +:+ s2) +:+ s3 = s1 +:+ s2 +:+ s3.
Proof. induction s1 as [|c s1 IH]; [done | by rewrite !app_String, IH]. Qed.

Lemma substring_adjacent (n m1 m2 : nat) (s : string) :
  String.substring n (m1 + m2) s
  = String.substring n m1 s +:+ String.substring (n + m1) m2 s.
Proof.
  revert n m1; induction s as [|c s IH]; intros n m1.
  - destruct n, m1, m2; done.
  - destruct n as [|n]; simpl.
    + destruct m1 as [|m1]; simpl; [by destruct m2 |].
      rewrite app_String. f_equal. apply (IH 0%nat).
    + apply IH.
Qed.

Lemma slice_bound_in_range (n i : Z) : 0 ≤ i ≤ n → slice_bound n i = i.
Proof. unfold slice_bound; intros ?. destruct (Z.ltb_spec i 0); lia. Qed.

Lemma slice_bound_range (n i : Z) : 0 ≤ n → 0 ≤ slice_bound n i ≤ n.
Proof. unfold slice_bound; intros ?. destruct (Z.ltb_spec i 0); lia. Qed.

Lemma py_slice_in_range (s : string) (a b : Z) :
  0 ≤ a ≤ Z.of_nat (String.length s) → 0 ≤ b ≤ Z.of_nat (String.length s) →
  py_slice s a b = String.substring (Z.to_nat a) (Z.to_nat (b - a)) s.
Proof. intros Ha Hb. unfold py_slice. by rewrite !slice_bound_in_range. Qed.

Lemma py_slice_all (s : string) : py_slice s 0 (Z.of_nat (String.length s)) = s.
Proof.
  rewrite py_slice_in_range by lia.
  rewrite Z.sub_0_r, Nat2Z.id. apply substring_all.
Qed.

Lemma py_slice_adjacent (s : string) (a b c : Z) :
  0 ≤ a → a ≤ b → b ≤ c → c ≤ Z.of_nat (String.length s) →
  py_slice s a b +:+ py_slice s b c = py_slice s a c.
Proof.
  intros. rewrite !py_slice_in_range by lia.
  replace (Z.to_nat (c - a)) with (Z.to_nat (b - a) + Z.to_nat (c - b))%nat by lia.
  rewrite substring_adjacent. do 2 f_equal. lia.
Qed.

(** ** Sorting *)

Lemma sorted_Sorted (l : list Z) : Sorted Z.le (sorted l).
Proof. apply (Sorted_merge_sort Z.le). Qed.

Lemma sorted_Permutation (l : list Z) : sorted l ≡ₚ l.
Proof. apply (merge_sort_Permutation Z.le). Qed.

Lemma sorted_nil_inv (l : list Z) : sorted l = [] → l = [].
Proof.
  intros H. apply Permutation_nil_r. rewrite <- H. symmetry. apply sorted_Permutation.
Qed.

Lemma sorted_Forall (P : Z → Prop) (l : list Z) : Forall P l → Forall P (sorted l).
Proof. intros H. by rewrite sorted_Permutation. Qed.

(** ** Offsets and intervals *)

Lemma intervals_of_cons (x y : Z) (l : list Z) :
  intervals_of (x :: y :: l) = (x, y) :: intervals_of (y :: l).
Proof. done. Qed.

Lemma intervals_of_tiles (x : Z) (l : list Z) :
  Sorted Z.le (x :: l) → tiles x (default x (last (x :: l))) (intervals_of (x :: l)).
Proof.
  revert x; induction l as [|y l IH]; intros x Hs; [done |].
  rewrite intervals_of_cons, last_cons_cons.
  apply Sorted_inv in Hs as [Hs Hhd]. apply HdRel_inv in Hhd.
  simpl. split_and!; [done | done |].
  specialize (IH y Hs).
  destruct (last (y :: l)) as [z|] eqn:Hl; [done |].
  by apply last_None in Hl.
Qed.

Lemma interval_points_nil (a : Z) : interval_points (a, a) = [].
Proof. unfold interval_points; simpl. by rewrite Z.sub_diag. Qed.

Lemma interval_points_adjacent (a b c : Z) :
  a ≤ b → b ≤ c →
  interval_points (a, b) ++ interval_points (b, c) = interval_points (a, c).
Proof.
  intros Hab Hbc. unfold interval_points; simpl.
  replace (Z.to_nat (c - a)) with (Z.to_nat (b - a) + Z.to_nat (c - b))%nat by lia.
  rewrite seq_app, fmap_app. f_equal.
  replace (seq (0 + Z.to_nat (b - a)) (Z.to_nat (c - b)))
    with (Nat.add (Z.to_nat (b - a)) <$> seq 0 (Z.to_nat (c - b)))
    by (rewrite fmap_add_seq; f_equal; lia).
  rewrite <- list_fmap_compose.
  apply list_fmap_ext. intros _ i _. simpl. lia.
Qed.

Lemma tiles_points (lo hi : Z) (ivs : list (Z * Z)) :
  tiles lo hi ivs →
  lo ≤ hi ∧ mjoin (interval_points <$> ivs) = interval_points (lo, hi).
Proof.
  revert lo; induction ivs as [|[s e] ivs IH]; intros lo; cbn [tiles].
  - intros ->. by rewrite interval_points_nil.
  - cbn [fst snd]. intros (-> & Hse & Ht). destruct (IH _ Ht) as [Hle Hpts].
    split; [lia |]. rewrite fmap_cons.
    trans (interval_points (lo, e) ++ interval_points (e, hi)).
    + by rewrite <- Hpts.
    + by apply interval_points_adjacent.
Qed.

Lemma Sorted_cons_le (x : Z) (l : list Z) :
  Sorted Z.le l → Forall (Z.le x) l → Sorted Z.le (x :: l).
Proof. intros Hs Hall. constructor; [done |]. destruct Hall; by constructor. Qed.

Lemma Sorted_snoc_ge (x : Z) (l : list Z) :
  Sorted Z.le l → Forall (λ y, y ≤ x) l → Sorted Z.le (l ++ [x]).
Proof.
  intros Hs Hall. apply Sorted_snoc; [done |].
  destruct l as [|y l _] using rev_ind; [constructor |].
  constructor. apply Forall_app in Hall as [_ Hy]. by inv Hy.
Qed.

(** What [split_positions] returns for offsets inside the read. *)
Lemma split_positions_in_range (n : Z) (ps : list Z) :
  0 ≤ n → Forall (in_range n) ps →
  ∃ l, split_positions n ps = 0 :: l ∧ last (0 :: l) = Some n
       ∧ Sorted Z.le (0 :: l) ∧ Forall (in_range n) (0 :: l).
Proof.
  intros Hn Hps. unfold split_positions.
  destruct ps as [|p ps].
  { exists [n]. split_and!; [done | done | | ].
    - repeat constructor; done.
    - repeat constructor; unfold in_range; lia. }
  set (srt := sorted (p :: ps)).
  assert (Hsrt : Sorted Z.le srt) by apply sorted_Sorted.
  assert (Hall : Forall (in_range n) srt) by by apply sorted_Forall.
  assert (Hne : srt ≠ []) by (intros H%sorted_nil_inv; done).
  clearbody srt.
  assert (H0 : ∃ l, (if bool_decide (head srt ≠ Some 0) then 0 :: srt else srt) = 0 :: l
                 ∧ Sorted Z.le (0 :: l) ∧ Forall (in_range n) (0 :: l)).
  { case_bool_decide as Hhd.
    - exists srt. split_and!; [done | | ].
      + apply Sorted_cons_le; [done |].
        eapply Forall_impl; [exact Hall |]. unfold in_range; intros; lia.
      + constructor; [unfold in_range; lia | done].
    - apply head_Some in Hhd as [l ->]. by exists l. }
  destruct H0 as (l & -> & Hs & Hr).
  case_bool_decide as Hlast.
  - exists (l ++ [n]). split_and!.
    + done.
    + by rewrite app_comm_cons, last_snoc.
    + rewrite app_comm_cons. apply Sorted_snoc_ge; [done |].
      eapply Forall_impl; [exact Hr |]. unfold in_range; intros; lia.
    + rewrite app_comm_cons. apply Forall_app. split; [done |].
      repeat constructor; unfold in_range; lia.
  - by exists l.
Qed.

Lemma intervals_tile (n : Z) (ps : list Z) :
  0 ≤ n → Forall (in_range n) ps → tiles 0 n (intervals_of (split_positions n ps)).
Proof.
  intros Hn Hps.
  destruct (split_positions_in_range n ps Hn Hps) as (l & -> & Hlast & Hs & _).
  pose proof (intervals_of_tiles 0 l Hs) as Ht. by rewrite Hlast in Ht.
Qed.

(** ** Modification re-indexing *)

Lemma select_pairs_cons (md : mod_data) (x : nat) (idx : list nat) :
  select_pairs md (x :: idx)
  = match md !! x with
    | Some y => y :: select_pairs md idx
    | None => select_pairs md idx
    end.
Proof. done. Qed.

Lemma select_from (start end_ : Z) (pre md : mod_data) :
  let idx := List.filter
               (λ x, match (pre ++ md) !! x with
                     | Some (offset, _) => in_subread start end_ offset
                     | None => false
                     end)
               (seq (length pre) (length md)) in
  select_pairs (pre ++ md) idx = pairs_within start end_ md
  ∧ length idx = length (pairs_within start end_ md).
Proof.
  revert pre; induction md as [|[o p] md IH]; intros pre; [done |].
  cbn [length seq List.filter pairs_within].
  rewrite list_lookup_middle by done. cbn [fst].
  specialize (IH (pre ++ [(o, p)])).
  rewrite <- app_assoc, length_app, Nat.add_1_r in IH. cbn [app] in IH.
  destruct IH as [IH1 IH2].
  destruct (in_subread start end_ o).
  - rewrite select_pairs_cons, list_lookup_middle by done.
    split; [f_equal; exact IH1 | cbn [length]; f_equal; exact IH2].
  - done.
Qed.

Lemma select_pairs_idx (start end_ : Z) (md : mod_data) :
  select_pairs md (select_idx start end_ md) = pairs_within start end_ md.
Proof. apply (select_from start end_ [] md). Qed.

Lemma select_idx_length (start end_ : Z) (md : mod_data) :
  length (select_idx start end_ md) = length (pairs_within start end_ md).
Proof. apply (select_from start end_ [] md). Qed.

Lemma select_idx_nil (start end_ : Z) (k : mod_key) (md : mod_data) :
  select_idx start end_ md = [] ↔ survives start end_ (k, md) = false.
Proof.
  unfold survives; cbn [snd].
  pose proof (select_idx_length start end_ md) as Hlen.
  destruct (select_idx start end_ md), (pairs_within start end_ md); done.
Qed.

Lemma cache_ok_empty (seq_ : string) : cache_ok seq_ ∅.
Proof. intros b l. by rewrite lookup_empty. Qed.

Lemma cache_ok_insert (seq_ b : string) (cache : gmap string (list nat)) :
  cache_ok seq_ cache → cache_ok seq_ (<[b := base_positions seq_ b]> cache).
Proof.
  intros Hc b' l. rewrite lookup_insert. case_decide as Hb.
  - intros [= <-]. by subst.
  - apply Hc.
Qed.

(** One iteration, with the cache read away. *)
Lemma encode_item_spec (seq_ : string) (start end_ : Z) (st : enc_state)
    (item : mod_key * mod_data) :
  cache_ok seq_ (base_indices st) →
  if survives start end_ item
  then if counts_match seq_ start end_ item
       then ∃ cache, cache_ok seq_ cache
              ∧ encode_item seq_ start end_ st item
                = Ok {| mm_str := mm_str st
                                  +:+ mm_entry item.1 (key_deltas seq_ start end_ item);
                        ml_str := ml_str st
                                  +:+ ml_entry item.1 (key_probs start end_ item);
                        base_indices := cache |}
       else encode_item seq_ start end_ st item = Err AssertionError
  else encode_item seq_ start end_ st item = Ok st.
Proof.
  intros Hc. destruct item as [k md].
  destruct (survives start end_ (k, md)) eqn:Hsurv.
  - unfold encode_item, counts_match, key_deltas, key_probs. cbn [fst snd].
    destruct (select_idx start end_ md) as [|i idx] eqn:Hidx.
    { apply (select_idx_nil _ _ k) in Hidx. congruence. }
    rewrite <- Hidx, select_pairs_idx.
    destruct (base_indices st !! key_base k) as [l|] eqn:Hl.
    + apply Hc in Hl as ->. case_bool_decide; [| done].
      exists (base_indices st). done.
    + case_bool_decide; [| done].
      eexists. split; [| done]. by apply cache_ok_insert.
  - unfold encode_item. apply (select_idx_nil _ _ k) in Hsurv. by rewrite Hsurv.
Qed.

Lemma encode_items_spec (seq_ : string) (start end_ : Z)
    (items : modified_bases_t) (st : enc_state) :
  cache_ok seq_ (base_indices st) →
  if forallb (item_ok seq_ start end_) items
  then ∃ cache,
         encode_items seq_ start end_ st items
         = Ok {| mm_str := mm_str st +:+ mm_payload seq_ start end_ items;
                 ml_str := ml_str st +:+ ml_payload start end_ items;
                 base_indices := cache |}
  else encode_items seq_ start end_ st items = Err AssertionError.
Proof.
  revert st; induction items as [|item items IH]; intros st Hc.
  - cbn. exists (base_indices st). rewrite !app_empty_r. by destruct st.
  - cbn [forallb encode_items mm_payload ml_payload]. unfold item_ok at 1.
    pose proof (encode_item_spec seq_ start end_ st item Hc) as Hitem.
    destruct (survives start end_ item); cbn [negb orb andb].
    + destruct (counts_match seq_ start end_ item); cbn [andb].
      * destruct Hitem as (cache & Hcache & ->). cbn [bind].
        match goal with
        | |- context [encode_items _ _ _ ?st' _] => specialize (IH st' Hcache)
        end.
        cbn [mm_str ml_str] in IH.
        rewrite !app_assoc_str in IH. exact IH.
      * by rewrite Hitem.
    + rewrite Hitem. cbn [bind]. rewrite !app_empty_l. by apply IH.
Qed.

(** The two modification tags in closed form. *)
Lemma mod_tags_spec (seq_ : string) (start end_ : Z) (items : modified_bases_t) :
  items ≠ [] →
  mod_tags seq_ start end_ (Some items)
  = if forallb (item_ok seq_ start end_) items
    then Ok ["MM:Z:" +:+ mm_payload seq_ start end_ items;
             "ML:B:" +:+ ml_payload start end_ items]
    else Err AssertionError.
Proof.
  intros Hne. unfold mod_tags. destruct items as [|item items]; [done |].
  pose proof (encode_items_spec seq_ start end_ (item :: items)
                {| mm_str := "MM:Z:"; ml_str := "ML:B:"; base_indices := ∅ |}
                (cache_ok_empty seq_)) as H.
  destruct (forallb _ _).
  - destruct H as [cache ->]. done.
  - by rewrite H.
Qed.

Lemma mod_tags_closed (seq_ : string) (mb : option modified_bases_t) (iv : Z * Z) :
  mod_tags (py_slice seq_ iv.1 iv.2) iv.1 iv.2 mb
  = if mods_ok seq_ mb iv then Ok (expected_mod_tags seq_ mb iv)
    else Err AssertionError.
Proof.
  destruct mb as [[|item items]|]; [done | | done].
  by rewrite mod_tags_spec.
Qed.

(** ** Children *)

Section Children.

Variable MOD_TAGS : gset string.
Variable pysam_modified_bases : AlignData.t → result modified_bases_t.

Lemma get_subread_closed (self : AlignData.t) (n x : nat)
    (mb : option modified_bases_t) (iv : Z * Z) :
  AlignData.get_subread MOD_TAGS self iv.1 iv.2 (AlignData.subread_name self x n)
    true true (Some (x, n)) mb
  = if mods_ok (AlignData.seq self) mb iv
    then Ok (expected_child MOD_TAGS self n mb x iv)
    else Err AssertionError.
Proof using Type.
  unfold AlignData.get_subread. rewrite mod_tags_closed.
  destruct (mods_ok _ _ _); [| done].
  cbn [bind]. unfold expected_child. by rewrite <- !app_assoc.
Qed.

Lemma subreads_from_closed (self : AlignData.t) (n : nat)
    (mb : option modified_bases_t) (ivs : list (Z * Z)) (x : nat) :
  AlignData.subreads_from MOD_TAGS self n mb x ivs
  = if forallb (mods_ok (AlignData.seq self) mb) ivs
    then Ok (imap (λ i, expected_child MOD_TAGS self n mb (x + i)) ivs)
    else Err AssertionError.
Proof using Type.
  revert x; induction ivs as [|[s e] ivs IH]; intros x; [done |].
  cbn [AlignData.subreads_from forallb].
  pose proof (get_subread_closed self n x mb (s, e)) as Hsub.
  cbn [fst snd] in Hsub. rewrite Hsub.
  destruct (mods_ok _ _ (s, e)); [| done].
  cbn [bind andb]. rewrite IH.
  destruct (forallb _ ivs); [| done].
  cbn [bind imap]. rewrite Nat.add_0_r. do 2 f_equal.
  apply imap_ext. intros i iv _. cbn. f_equal. lia.
Qed.

Lemma split_closed (self : AlignData.t) (ps : list Z) :
  AlignData.split MOD_TAGS pysam_modified_bases self ps
  = match decoded MOD_TAGS pysam_modified_bases self with
    | Ok mb =>
        let ivs := AlignData.intervals self ps in
        if forallb (mods_ok (AlignData.seq self) mb) ivs
        then Ok (imap (expected_child MOD_TAGS self (length ivs) mb) ivs)
        else Err AssertionError
    | Err e => Err e
    end.
Proof using Type.
  unfold AlignData.split, decoded.
  destruct (AlignData.has_mods MOD_TAGS self).
  - destruct (pysam_modified_bases self) as [mb|e]; [| done].
    cbn [bind]. by rewrite subreads_from_closed.
  - cbn [bind]. by rewrite subreads_from_closed.
Qed.

End Children.

Lemma cat_slices (s : string) (ivs : list (Z * Z)) (lo hi : Z) :
  tiles lo hi ivs → 0 ≤ lo → hi ≤ Z.of_nat (String.length s) →
  cat ((λ iv, py_slice s iv.1 iv.2) <$> ivs) = py_slice s lo hi.
Proof.
  revert lo; induction ivs as [|[a b] ivs IH]; intros lo Ht Hlo Hhi.
  - cbn in Ht. subst hi. cbn. unfold py_slice.
    by rewrite Z.sub_diag, substring_none.
  - cbn [tiles fst snd] in Ht. destruct Ht as (-> & Hab & Ht).
    pose proof (tiles_points _ _ _ Ht) as [Hbhi _].
    rewrite fmap_cons. cbn [cat foldr fst snd].
    change (foldr String.append "" ?l) with (cat l).
    rewrite (IH b) by (done || lia).
    apply py_slice_adjacent; lia.
Qed.

Lemma read_length_nonneg (self : AlignData.t) : 0 ≤ AlignData.read_length self.
Proof. unfold AlignData.read_length. lia. Qed.

Lemma forallb_false {A : Type} (f : A → bool) (l : list A) :
  forallb f l = false → ∃ x, x ∈ l ∧ f x = false.
Proof.
  induction l as [|x l IH]; cbn; [done |].
  destruct (f x) eqn:Hx; cbn.
  - intros (y & Hy & Hf)%IH. exists y. split; [by right | done].
  - intros _. exists x. split; [by left | done].
Qed.

Lemma forallb_true {A : Type} (f : A → bool) (l : list A) (x : A) :
  forallb f l = true → x ∈ l → f x = true.
Proof.
  intros H Hx. apply forallb_forall with (x := x) in H; [done |].
  by apply list_elem_of_In.
Qed.

Lemma remove_dups_NoDup (l : list Z) : NoDup l → remove_dups l = l.
Proof.
  induction 1 as [|x l Hx _ IH]; [done |].
  cbn [remove_dups]. destruct (decide_rel elem_of x l); [done | by rewrite IH].
Qed.

Lemma head_absent (l : list Z) :
  Sorted Z.le l → Forall (Z.le 0) l → (head l ≠ Some 0 ↔ 0 ∉ l).
Proof.
  intros Hs Hall. destruct l as [|x l]; [rewrite elem_of_nil; cbn; naive_solver |].
  apply (Sorted_StronglySorted _) in Hs. apply StronglySorted_cons in Hs as [Hx _].
  cbn. split.
  - intros Hne [Heq|Hin]%elem_of_cons; [congruence |].
    rewrite Forall_forall in Hx. specialize (Hx _ Hin).
    apply Forall_cons in Hall as [? _]. apply Hne. f_equal. lia.
  - intros Hnin [= ->]. apply Hnin. by left.
Qed.

Lemma last_absent (n : Z) (l : list Z) :
  Sorted Z.le l → Forall (λ p, p ≤ n) l → (last l ≠ Some n ↔ n ∉ l).
Proof.
  intros Hs Hall. destruct l as [|x l _] using rev_ind; [rewrite elem_of_nil; cbn; naive_solver |].
  apply (Sorted_StronglySorted _) in Hs. apply StronglySorted_app in Hs as (Hle & _ & _).
  rewrite last_snoc. split.
  - intros Hne [Hin| ->%list_elem_of_singleton]%elem_of_app; [| done].
    specialize (Hle n x Hin ltac:(by left)).
    apply Forall_app in Hall as [_ Hx]. apply Forall_cons in Hx as [? _].
    apply Hne. f_equal. lia.
  - intros Hnin [= ->]. apply Hnin. apply elem_of_app. right. by left.
Qed.

Lemma mm_payload_app (seq_ : string) (start end_ : Z) (l1 l2 : modified_bases_t) :
  mm_payload seq_ start end_ (l1 ++ l2)
  = mm_payload seq_ start end_ l1 +:+ mm_payload seq_ start end_ l2.
Proof.
  induction l1 as [|item l1 IH]; [done |].
  cbn [app mm_payload]. by rewrite IH, app_assoc_str.
Qed.

Lemma ml_payload_app (start end_ : Z) (l1 l2 : modified_bases_t) :
  ml_payload start end_ (l1 ++ l2)
  = ml_payload start end_ l1 +:+ ml_payload start end_ l2.
Proof.
  induction l1 as [|item l1 IH]; [done |].
  cbn [app ml_payload]. by rewrite IH, app_assoc_str.
Qed.

(** A key none of whose pairs lies in the interval leaves no trace in the
    payload. *)
Lemma payload_none_survive (seq_ : string) (start end_ : Z) (items : modified_bases_t) :
  (∀ item, item ∈ items → pairs_within start end_ item.2 = []) →
  forallb (item_ok seq_ start end_) items = true
  ∧ mm_payload seq_ start end_ items = ""
  ∧ ml_payload start end_ items = "".
Proof.
  induction items as [|item items IH]; intros Hnone; [done |].
  destruct IH as (IH1 & IH2 & IH3).
  { intros it Hit. apply Hnone. by right. }
  cbn [forallb mm_payload ml_payload]. unfold item_ok at 1, survives.
  rewrite (Hnone item) by (by left). by rewrite IH1, IH2, IH3.
Qed.

Lemma text_lines_line (a rest : string) :
  no_newline a = true → text_lines (a +:+ newline +:+ rest) = a :: text_lines rest.
Proof.
  induction a as [|c a IH]; intros Hnl; [done |].
  cbn [no_newline] in Hnl. apply andb_prop in Hnl as [Hc Ha].
  rewrite app_String. cbn [text_lines].
  destruct (Ascii.eqb c "010"); [done |]. by rewrite (IH Ha).
Qed.

Lemma py_slice_star_head (e : Z) : 1 ≤ e → py_slice "*" 0 e = "*".
Proof.
  intros He. unfold py_slice, slice_bound. cbn [String.length].
  destruct (Z.ltb_spec e 0); [lia |].
  change (0 <? 0) with false. cbn match.
  replace (Z.min e (Z.of_nat 1)) with 1 by lia. done.
Qed.

Lemma py_slice_star_tail (s e : Z) : 1 ≤ s → py_slice "*" s e = "".
Proof.
  intros Hs. unfold py_slice.
  pose proof (slice_bound_range (Z.of_nat (String.length "*")) e ltac:(lia)) as He.
  cbn [String.length] in *.
  assert (slice_bound (Z.of_nat 1) s = 1) as ->.
  { unfold slice_bound. destruct (Z.ltb_spec s 0); lia. }
  replace (Z.to_nat (slice_bound (Z.of_nat 1) e - 1)) with 0%nat by lia.
  done.
Qed.

(** * The specification, property by property *)

Section Specification.

Variable MOD_TAGS : gset string.
Variable pysam_modified_bases : AlignData.t → result modified_bases_t.

Local Abbreviation split := (AlignData.split MOD_TAGS pysam_modified_bases).

(** What a successful [split] returns: one [expected_child] per interval. *)
Lemma split_Ok_inv (self : AlignData.t) (ps : list Z) (cs : list AlignData.t) :
  split self ps = Ok cs →
  ∃ mb, decoded MOD_TAGS pysam_modified_bases self = Ok mb
        ∧ forallb (mods_ok (AlignData.seq self) mb) (AlignData.intervals self ps) = true
        ∧ cs = imap (expected_child MOD_TAGS self
                       (length (AlignData.intervals self ps)) mb)
                 (AlignData.intervals self ps).
Proof using Type.
  rewrite split_closed.
  destruct (decoded _ _ self) as [mb|e]; [| done].
  cbn zeta. destruct (forallb _ _) eqn:Hok; [| done].
  intros [= <-]. by exists mb.
Qed.

(** A record without modification tags is split without error. *)
Lemma split_no_mods (self : AlignData.t) (ps : list Z) :
  AlignData.has_mods MOD_TAGS self = false →
  split self ps
  = Ok (imap (expected_child MOD_TAGS self
                (length (AlignData.intervals self ps)) None)
          (AlignData.intervals self ps)).
Proof using Type.
  intros Hm. rewrite split_closed. unfold decoded. rewrite Hm. cbn zeta.
  assert (forallb (mods_ok (AlignData.seq self) None) (AlignData.intervals self ps)
          = true) as ->; [| done].
  apply forallb_forall. done.
Qed.

Lemma child_seqs (self : AlignData.t) (n : nat) (mb : option modified_bases_t)
    (ivs : list (Z * Z)) :
  AlignData.seq <$> imap (expected_child MOD_TAGS self n mb) ivs
  = (λ iv, py_slice (AlignData.seq self) iv.1 iv.2) <$> ivs.
Proof using Type. rewrite fmap_imap, <- imap_const. by apply imap_ext. Qed.

(** C1, for cut offsets inside the read: when every cut offset lies in [[0, len(sequence)]], the
    intervals of the children returned by split tile [[0, len(sequence))]
    in ascending order, with no gap and no overlap: their positions,
    concatenated in the returned order, are exactly 0, 1, ...,
    len(sequence) - 1, and the children's sequences, concatenated in the
    returned order, are the parent's sequence. *)
Theorem split_intervals_tile (self : AlignData.t) (ps : list Z) :
  Forall (in_range (AlignData.read_length self)) ps →
  tiles 0 (AlignData.read_length self) (AlignData.intervals self ps)
  ∧ mjoin (interval_points <$> AlignData.intervals self ps)
    = interval_points (0, AlignData.read_length self)
  ∧ ∀ cs, split self ps = Ok cs →
      length cs = length (AlignData.intervals self ps)
      ∧ (∀ i c, cs !! i = Some c →
           ∃ iv, AlignData.intervals self ps !! i = Some iv
                 ∧ AlignData.seq c = py_slice (AlignData.seq self) iv.1 iv.2)
      ∧ cat (AlignData.seq <$> cs) = AlignData.seq self.
Proof using Type.
  intros Hps.
  pose proof (intervals_tile _ ps (read_length_nonneg self) Hps) as Ht.
  fold (AlignData.intervals self ps) in Ht.
  split_and!; [done | by apply tiles_points |].
  intros cs (mb & _ & _ & ->)%split_Ok_inv.
  split_and!.
  - by rewrite length_imap.
  - intros i c. rewrite list_lookup_imap.
    destruct (AlignData.intervals self ps !! i) as [iv|]; [| done].
    intros [= <-]. by exists iv.
  - rewrite child_seqs.
    rewrite (cat_slices _ _ 0 (AlignData.read_length self)); [| done | done |].
    + apply py_slice_all.
    + unfold AlignData.read_length. lia.
Qed.

(** C2, without deduplication: when the cut-offset list is non-empty, split sorts the
    offsets and keeps duplicates, prepends 0 if the smallest offset is not
    0 and appends len(sequence) if the largest is not len(sequence), before
    forming the consecutive interval pairs.  For offsets within
    [[0, len(sequence)]] this prepends 0 and appends len(sequence) exactly
    when they are absent, and for offsets that are moreover free of
    duplicates it is the sorted, deduplicated and padded list. *)
Theorem split_positions_sorted_padded (self : AlignData.t) (ps : list Z) :
  ps ≠ [] →
  AlignData.intervals self ps
  = intervals_of (split_positions (AlignData.read_length self) ps)
  ∧ Sorted Z.le (sorted ps) ∧ sorted ps ≡ₚ ps
  ∧ split_positions (AlignData.read_length self) ps
    = (if bool_decide (head (sorted ps) ≠ Some 0) then [0] else [])
        ++ sorted ps
        ++ (if bool_decide (last (sorted ps) ≠ Some (AlignData.read_length self))
            then [AlignData.read_length self] else [])
  ∧ (Forall (in_range (AlignData.read_length self)) ps →
     split_positions (AlignData.read_length self) ps
     = pad_absent (AlignData.read_length self) (sorted ps))
  ∧ (Forall (in_range (AlignData.read_length self)) ps → NoDup ps →
     split_positions (AlignData.read_length self) ps
     = spec_positions (AlignData.read_length self) ps).
Proof using Type.
  clear MOD_TAGS pysam_modified_bases.
  intros Hne. set (n := AlignData.read_length self).
  assert (Hsrt : Sorted Z.le (sorted ps)) by apply sorted_Sorted.
  assert (Hperm : sorted ps ≡ₚ ps) by apply sorted_Permutation.
  assert (Hsne : sorted ps ≠ []) by (intros H%sorted_nil_inv; done).
  assert (Hshape : split_positions n ps
    = (if bool_decide (head (sorted ps) ≠ Some 0) then [0] else [])
        ++ sorted ps
        ++ (if bool_decide (last (sorted ps) ≠ Some n) then [n] else [])).
  { unfold split_positions. destruct ps as [|p ps]; [done |].
    destruct (sorted (p :: ps)) as [|x srt] eqn:Hs; [done |].
    destruct (bool_decide (head (x :: srt) ≠ Some 0)); cbn [app];
      rewrite ?last_cons_cons;
      destruct (bool_decide (last (x :: srt) ≠ Some n)); cbn [app];
      by rewrite ?app_nil_r. }
  assert (Hpad : Forall (in_range n) ps → split_positions n ps = pad_absent n (sorted ps)).
  { intros Hall. rewrite Hshape. unfold pad_absent.
    apply (sorted_Forall _ _) in Hall.
    assert (H0 : Forall (Z.le 0) (sorted ps))
      by (eapply Forall_impl; [exact Hall |]; unfold in_range; intros; lia).
    assert (Hn : Forall (λ p, p ≤ n) (sorted ps))
      by (eapply Forall_impl; [exact Hall |]; unfold in_range; intros; lia).
    pose proof (head_absent _ Hsrt H0) as Hhead.
    pose proof (last_absent n _ Hsrt Hn) as Hlast.
    pose proof (read_length_nonneg self) as Hnn. fold n in Hnn.
    destruct (decide (0 ∈ sorted ps)) as [Hin0|Hnin0].
    - rewrite (bool_decide_eq_false_2 (head _ ≠ _)) by (rewrite Hhead; tauto).
      rewrite (bool_decide_eq_true_2 (0 ∈ _)) by done. cbn [app].
      destruct (decide (n ∈ sorted ps)) as [Hinn|Hninn].
      + rewrite (bool_decide_eq_false_2 (last _ ≠ _)) by (rewrite Hlast; tauto).
        rewrite (bool_decide_eq_true_2 (n ∈ _)) by done. by rewrite app_nil_r.
      + rewrite (bool_decide_eq_true_2 (last _ ≠ _)) by (by rewrite Hlast).
        by rewrite (bool_decide_eq_false_2 (n ∈ _)) by done.
    - rewrite (bool_decide_eq_true_2 (head _ ≠ _)) by (by rewrite Hhead).
      rewrite (bool_decide_eq_false_2 (0 ∈ _)) by done. cbn [app].
      assert (Hn0 : n ≠ 0).
      { intros Hz. destruct (sorted ps) as [|x srt] eqn:Hs; [done |].
        apply Forall_cons in Hall as [Hx _]. unfold in_range in Hx.
        apply Hnin0. replace x with 0 by lia. by left. }
      destruct (decide (n ∈ sorted ps)) as [Hinn|Hninn].
      + rewrite (bool_decide_eq_false_2 (last _ ≠ _)) by (rewrite Hlast; tauto).
        rewrite (bool_decide_eq_true_2 (n ∈ _ :: _)) by (by right).
        by rewrite app_nil_r.
      + rewrite (bool_decide_eq_true_2 (last _ ≠ _)) by (by rewrite Hlast).
        rewrite (bool_decide_eq_false_2 (n ∈ _ :: _)); [done |].
        intros [?|?]%elem_of_cons; done. }
  split_and!; [done | done | done | done | done |].
  intros Hall Hnd. rewrite (Hpad Hall). unfold spec_positions.
  rewrite remove_dups_NoDup; [done |]. by rewrite Hperm.
Qed.

(** C3, without validation: split does not validate the requested offsets.  It
    raises nothing for a record without modification tags, whatever the
    offsets, and the only errors it raises at all are pysam's decoding
    error and the failed modification-count assertion, both for records
    with modification tags.  When every requested offset lies in
    [[0, len(sequence)]], every offset used for splitting lies there too. *)
Theorem split_offsets_not_validated (self : AlignData.t) (ps : list Z) :
  (AlignData.has_mods MOD_TAGS self = false → ∃ cs, split self ps = Ok cs)
  ∧ (∀ e, split self ps = Err e →
       AlignData.has_mods MOD_TAGS self = true
       ∧ (pysam_modified_bases self = Err e ∨ e = AssertionError))
  ∧ (Forall (in_range (AlignData.read_length self)) ps →
     Forall (in_range (AlignData.read_length self))
       (split_positions (AlignData.read_length self) ps)).
Proof using Type.
  split_and!.
  - intros Hm. eexists. by apply split_no_mods.
  - intros e. rewrite split_closed. unfold decoded.
    destruct (AlignData.has_mods MOD_TAGS self).
    + destruct (pysam_modified_bases self) as [mb|e'].
      * cbn zeta. destruct (forallb _ _); [done |]. intros [= <-]. auto.
      * intros [= <-]. auto.
    + cbn zeta.
      assert (forallb (mods_ok (AlignData.seq self) None)
                (AlignData.intervals self ps) = true) as ->; [| done].
      by apply forallb_forall.
  - intros Hall.
    destruct (split_positions_in_range _ ps (read_length_nonneg self) Hall)
      as (l & -> & _ & _ & Hr).
    done.
Qed.

(** C4: whenever get_subread returns a child, the number of deltas emitted
    for every modification key that survives into the child equals the
    number of probabilities selected for it, and these deltas and
    probabilities are the payload of the child's two modification tags in
    full; whenever the two numbers differ for a surviving key, get_subread
    raises AssertionError and returns no child. *)
Theorem modification_counts_checked (self : AlignData.t) (start end_ : Z)
    (name : string) (add_mi_tag add_xc_tag : bool)
    (subread_index : option (nat * nat)) (items : modified_bases_t) :
  let seq_ := py_slice (AlignData.seq self) start end_ in
  let mismatch := λ item,
    survives start end_ item = true
    ∧ length (key_deltas seq_ start end_ item) ≠ length (key_probs start end_ item) in
  match AlignData.get_subread MOD_TAGS self start end_ name add_mi_tag add_xc_tag
          subread_index (Some items) with
  | Ok c =>
      (∀ item, item ∈ items → survives start end_ item = true →
         length (key_deltas seq_ start end_ item)
         = length (key_probs start end_ item))
      ∧ (items ≠ [] →
         ∃ pre, AlignData.tags c
                = pre ++ ["MM:Z:" +:+ mm_payload seq_ start end_ items;
                          "ML:B:" +:+ ml_payload start end_ items])
  | Err e => e = AssertionError ∧ ∃ item, item ∈ items ∧ mismatch item
  end
  ∧ ((∃ item, item ∈ items ∧ mismatch item) →
     AlignData.get_subread MOD_TAGS self start end_ name add_mi_tag add_xc_tag
       subread_index (Some items) = Err AssertionError).
Proof using Type.
  clear pysam_modified_bases.
  intros seq_ mismatch.
  assert (Hchar : ∀ item, item_ok seq_ start end_ item = false ↔ mismatch item).
  { intros item. unfold item_ok, counts_match, mismatch.
    destruct (survives start end_ item); cbn [negb orb].
    - rewrite bool_decide_eq_false. tauto.
    - split; [done | by intros [? _]]. }
  unfold AlignData.get_subread.
  pose proof (mod_tags_closed (AlignData.seq self) (Some items) (start, end_)) as Hm.
  cbn [fst snd] in Hm. fold seq_ in Hm. fold seq_. rewrite Hm. clear Hm.
  unfold mods_ok. cbn [fst snd]. fold seq_.
  destruct (forallb (item_ok seq_ start end_) items) eqn:Hall; cbn [bind].
  - split.
    + split.
      * intros item Hin Hsurv.
        pose proof (forallb_true _ _ _ Hall Hin) as Hok.
        destruct (decide (length (key_deltas seq_ start end_ item)
                          = length (key_probs start end_ item))) as [|Hne]; [done |].
        assert (item_ok seq_ start end_ item = false)
          by (apply Hchar; by split).
        congruence.
      * intros Hne. destruct items as [|item items]; [done |].
        cbn [AlignData.tags AlignData.make expected_mod_tags fst snd]. eauto.
    + intros (item & Hin & Hmis). apply Hchar in Hmis.
      pose proof (forallb_true _ _ _ Hall Hin). congruence.
  - apply forallb_false in Hall as (item & Hin & Hmis). apply Hchar in Hmis.
    split; [| done]. split; [done |]. by exists item.
Qed.

(** C5: for each modification key on its own, the pairs selected for a
    child interval are exactly the key's (offset, probability) pairs with
    start <= offset < end, in their order; a key with no such pair leaves
    the encoding as it was, so the child's two tags are those of the
    mapping without that key, and a key with such pairs contributes one
    entry built from exactly those pairs. *)
Theorem modifications_selected_within_interval (seq_ : string) (start end_ : Z)
    (k : mod_key) (md : mod_data) :
  select_pairs md (select_idx start end_ md) = pairs_within start end_ md
  ∧ (∀ p, p ∈ pairs_within start end_ md ↔ p ∈ md ∧ start ≤ p.1 < end_)
  ∧ sublist (pairs_within start end_ md) md
  ∧ (pairs_within start end_ md = [] →
     (∀ st, encode_item seq_ start end_ st (k, md) = Ok st)
     ∧ (∀ l1 l2, l1 ++ l2 ≠ [] →
          mod_tags seq_ start end_ (Some (l1 ++ (k, md) :: l2))
          = mod_tags seq_ start end_ (Some (l1 ++ l2)))
     ∧ mod_tags seq_ start end_ (Some [(k, md)]) = Ok ["MM:Z:"; "ML:B:"])
  ∧ (pairs_within start end_ md ≠ [] →
     mod_tags seq_ start end_ (Some [(k, md)])
     = if bool_decide (length (key_deltas seq_ start end_ (k, md))
                       = length (pairs_within start end_ md))
       then Ok ["MM:Z:" +:+ mm_entry k (key_deltas seq_ start end_ (k, md));
                "ML:B:" +:+ ml_entry k (pairs_within start end_ md).*2]
       else Err AssertionError).
Proof using Type.
  split_and!.
  - apply select_pairs_idx.
  - intros p. unfold pairs_within. rewrite !list_elem_of_In, filter_In.
    unfold in_subread. rewrite andb_true_iff, Z.leb_le, Z.ltb_lt. done.
  - unfold pairs_within. induction md as [|p md IH]; [constructor |].
    cbn [List.filter]. destruct (in_subread _ _ _); by constructor.
  - intros Hnone.
    assert (Hsurv : survives start end_ (k, md) = false)
      by (unfold survives; cbn [snd]; by rewrite Hnone).
    split_and!.
    + intros st. unfold encode_item.
      by rewrite (proj2 (select_idx_nil start end_ k md) Hsurv).
    + intros l1 l2 Hne.
      rewrite !mod_tags_spec by (done || by destruct l1).
      rewrite !forallb_app, !mm_payload_app, !ml_payload_app.
      cbn [forallb mm_payload ml_payload]. unfold item_ok at 2.
      by rewrite Hsurv.
    + rewrite mod_tags_spec by done.
      cbn [forallb mm_payload ml_payload]. unfold item_ok.
      by rewrite Hsurv.
  - intros Hsome.
    assert (Hsurv : survives start end_ (k, md) = true)
      by (unfold survives; cbn [snd]; by destruct (pairs_within start end_ md)).
    rewrite mod_tags_spec by done.
    cbn [forallb mm_payload ml_payload]. unfold item_ok, counts_match, key_probs.
    rewrite Hsurv. cbn [negb orb fst snd].
    rewrite !app_empty_r, length_fmap.
    by destruct (bool_decide _).
Qed.

(** C6, off the modification error path: splitting a record with an empty
    cut-offset list yields exactly one child, whose sequence is the
    parent's sequence and whose name is the parent's name followed by
    ":1_1", whenever the record has no modification tags, or pysam decodes
    its modification tags and the count assertion of line 119 holds for
    every key on the whole read.  In the two cases that are left the split
    raises and yields no child: AssertionError when the assertion fails
    for some key, pysam's own error when the decoding raises. *)
Theorem split_without_cuts (self : AlignData.t) :
  let one_child := λ r : result (list AlignData.t),
    ∃ c, r = Ok [c] ∧ AlignData.seq c = AlignData.seq self
         ∧ AlignData.name c = AlignData.name self +:+ ":1_1" in
  let whole := (0, AlignData.read_length self) in
  (AlignData.has_mods MOD_TAGS self = false → one_child (split self []))
  ∧ (∀ mb, AlignData.has_mods MOD_TAGS self = true →
       pysam_modified_bases self = Ok mb →
       mods_ok (AlignData.seq self) (Some mb) whole = true →
       one_child (split self []))
  ∧ (∀ mb, AlignData.has_mods MOD_TAGS self = true →
       pysam_modified_bases self = Ok mb →
       mods_ok (AlignData.seq self) (Some mb) whole = false →
       split self [] = Err AssertionError)
  ∧ (∀ e, AlignData.has_mods MOD_TAGS self = true →
       pysam_modified_bases self = Err e →
       split self [] = Err e).
Proof using Type.
  intros one_child whole.
  assert (Hsplit : split self []
    = match decoded MOD_TAGS pysam_modified_bases self with
      | Ok mb =>
          if mods_ok (AlignData.seq self) mb whole
          then Ok [expected_child MOD_TAGS self 1 mb 0 whole]
          else Err AssertionError
      | Err e => Err e
      end).
  { rewrite split_closed.
    change (AlignData.intervals self []) with [whole].
    destruct (decoded _ _ self) as [mb|e]; [| done].
    cbn zeta. cbn [forallb imap length]. by rewrite Bool.andb_true_r. }
  assert (Hchild : ∀ mb,
    one_child (Ok [expected_child MOD_TAGS self 1 mb 0 whole])).
  { intros mb. eexists. split_and!; [done | apply py_slice_all | done]. }
  rewrite Hsplit. unfold decoded. split_and!.
  - intros ->. apply Hchild.
  - intros mb -> -> ->. apply Hchild.
  - by intros mb -> -> ->.
  - by intros e -> ->.
Qed.

(** C7: to_fastq raises exactly when the record's quality is the
    no-quality sentinel "*", and the error is a ValueError naming the
    record; otherwise it returns the header line, the sequence, a line
    holding "+" and the quality, each ended by a newline: four lines when
    none of the fields holds a newline itself. *)
Theorem to_fastq_needs_quality (self : AlignData.t) (with_tags : bool) :
  let header :=
    "@" +:+ AlignData.name self +:+ " "
      +:+ (if with_tags then join tab (AlignData.tags self) else "") in
  ((∃ e, AlignData.to_fastq self with_tags = Err e) ↔ AlignData.qual self = "*")
  ∧ match AlignData.to_fastq self with_tags with
    | Ok text =>
        text = header +:+ newline +:+ AlignData.seq self +:+ newline
                 +:+ "+" +:+ newline +:+ AlignData.qual self +:+ newline
        ∧ (no_newline header = true → no_newline (AlignData.seq self) = true →
           no_newline (AlignData.qual self) = true →
           text_lines text
           = [header; AlignData.seq self; "+"; AlignData.qual self; ""])
    | Err e =>
        e = ValueError ("No quality, can't write fastq for " +:+ AlignData.name self)
    end.
Proof using Type.
  intros header. unfold AlignData.to_fastq.
  destruct (String.eqb_spec (AlignData.qual self) "*") as [Hq|Hq].
  - split; [| done]. split; [done | eauto].
  - split; [split; [by intros [e ?] | done] |].
    assert (Htext :
      "@" +:+ AlignData.name self +:+ " "
        +:+ (if with_tags then join tab (AlignData.tags self) else "") +:+ newline
        +:+ AlignData.seq self +:+ newline +:+ "+" +:+ newline
        +:+ AlignData.qual self +:+ newline
      = header +:+ newline +:+ AlignData.seq self +:+ newline
          +:+ "+" +:+ newline +:+ AlignData.qual self +:+ newline).
    { unfold header. by rewrite !app_assoc_str. }
    rewrite Htext. split; [done |].
    intros Hh Hs Hql.
    rewrite (text_lines_line header) by done.
    rewrite (text_lines_line (AlignData.seq self)) by done.
    rewrite (text_lines_line "+") by done.
    rewrite <- (app_empty_r newline), (text_lines_line (AlignData.qual self)) by done.
    done.
Qed.

(** The child at an index of a successful [split], and its interval. *)
Lemma split_child_inv (self : AlignData.t) (ps : list Z) (cs : list AlignData.t)
    (i : nat) (c : AlignData.t) :
  split self ps = Ok cs → cs !! i = Some c →
  length cs = length (AlignData.intervals self ps)
  ∧ ∃ mb iv, decoded MOD_TAGS pysam_modified_bases self = Ok mb
             ∧ AlignData.intervals self ps !! i = Some iv
             ∧ c = expected_child MOD_TAGS self (length cs) mb i iv.
Proof using Type.
  intros (mb & Hdec & _ & ->)%split_Ok_inv. rewrite list_lookup_imap, length_imap.
  destruct (AlignData.intervals self ps !! i) as [iv|] eqn:Hiv; [| done].
  intros [= <-]. split; [done |]. by exists mb, iv.
Qed.

(** C8: every child produced by split has the slice [parent.qual[start:end]]
    as its quality.  When the parent's quality is the no-quality sentinel
    "*", a child whose interval starts at 0 and ends at 1 or later has
    quality "*", and a child whose interval starts at 1 or later has the
    empty quality, which to_fastq serializes without error. *)
Theorem children_quality_sliced (self : AlignData.t) (ps : list Z)
    (cs : list AlignData.t) :
  split self ps = Ok cs →
  length cs = length (AlignData.intervals self ps)
  ∧ ∀ i c, cs !! i = Some c →
      ∃ iv, AlignData.intervals self ps !! i = Some iv
        ∧ AlignData.qual c = py_slice (AlignData.qual self) iv.1 iv.2
        ∧ (AlignData.qual self = "*" → iv.1 = 0 → 1 ≤ iv.2 →
           AlignData.qual c = "*")
        ∧ (AlignData.qual self = "*" → 1 ≤ iv.1 →
           AlignData.qual c = ""
           ∧ ∀ with_tags, ∃ text, AlignData.to_fastq c with_tags = Ok text).
Proof using Type.
  intros Hsplit. split.
  { destruct cs as [|c0 cs'] eqn:Hcs.
    - apply split_Ok_inv in Hsplit as (mb & _ & _ & Heq).
      by rewrite Heq, length_imap.
    - by destruct (split_child_inv self ps _ 0 c0 Hsplit eq_refl) as [? _]. }
  intros i c Hc.
  destruct (split_child_inv self ps cs i c Hsplit Hc) as (_ & mb & iv & _ & Hiv & ->).
  exists iv. split_and!; [done | done | |].
  - intros Hq H0 H1. cbn [AlignData.qual expected_child AlignData.make].
    rewrite Hq, H0. by apply py_slice_star_head.
  - intros Hq H1. cbn [AlignData.qual expected_child AlignData.make].
    rewrite Hq, py_slice_star_tail by done. split; [done |].
    intros with_tags. unfold AlignData.to_fastq.
    cbn [AlignData.qual expected_child AlignData.make].
    rewrite Hq, py_slice_star_tail by done. cbn [String.eqb]. eauto.
Qed.

(** C9: when the parent has modification tags and pysam decodes a non-empty
    mapping from them, every child produced by split ends its tag list
    with an MM:Z: tag and an ML:B: tag, after the parent's kept tags, the
    MI tag and the Xc tag.  A child whose interval holds no modification
    of any key gets exactly "MM:Z:" and "ML:B:". *)
Theorem children_get_both_mod_tags (self : AlignData.t) (ps : list Z)
    (mb : modified_bases_t) (cs : list AlignData.t) :
  AlignData.has_mods MOD_TAGS self = true →
  pysam_modified_bases self = Ok mb → mb ≠ [] →
  split self ps = Ok cs →
  ∀ i c, cs !! i = Some c →
    ∃ iv mm ml,
      AlignData.intervals self ps !! i = Some iv
      ∧ AlignData.tags c
        = AlignData.kept_tags MOD_TAGS true (AlignData.tags self)
            ++ ["MI:Z:" +:+ AlignData.name self;
                AlignData.xc_tag iv.1 iv.2 (i, length cs);
                "MM:Z:" +:+ mm; "ML:B:" +:+ ml]
      ∧ ((∀ item, item ∈ mb → pairs_within iv.1 iv.2 item.2 = []) →
         mm = "" ∧ ml = "").
Proof using Type.
  intros Hmods Hdec Hne Hsplit i c Hc.
  destruct (split_child_inv self ps cs i c Hsplit Hc)
    as (_ & mb' & iv & Hdec' & Hiv & ->).
  unfold decoded in Hdec'. rewrite Hmods, Hdec in Hdec'.
  injection Hdec' as <-.
  exists iv, (mm_payload (py_slice (AlignData.seq self) iv.1 iv.2) iv.1 iv.2 mb),
    (ml_payload iv.1 iv.2 mb).
  split_and!; [done | |].
  - cbn [AlignData.tags expected_child AlignData.make].
    destruct mb as [|item mb]; [done |]. done.
  - intros Hnone.
    by destruct (payload_none_survive
                   (py_slice (AlignData.seq self) iv.1 iv.2) _ _ _ Hnone)
      as (_ & -> & ->).
Qed.

(** C10: the child at 1-based position k of the N children split returns
    is named with the suffix ":k_N", while its Xc tag, which follows the
    kept parent tags and the MI tag, records the zero-based index:
    "Xc:B:i,<start>,<end>,k-1,N". *)
Theorem child_name_and_xc_tag (self : AlignData.t) (ps : list Z)
    (cs : list AlignData.t) (k : nat) (c : AlignData.t) :
  split self ps = Ok cs → (1 ≤ k)%nat → cs !! (k - 1)%nat = Some c →
  ∃ start end_ mods,
    AlignData.intervals self ps !! (k - 1)%nat = Some (start, end_)
    ∧ AlignData.name c
      = AlignData.name self +:+ ":" +:+ str_of_nat k +:+ "_"
          +:+ str_of_nat (length cs)
    ∧ AlignData.tags c
      = AlignData.kept_tags MOD_TAGS true (AlignData.tags self)
          ++ ["MI:Z:" +:+ AlignData.name self;
              "Xc:B:i," +:+ str_of_int start +:+ "," +:+ str_of_int end_ +:+ ","
                +:+ str_of_nat (k - 1) +:+ "," +:+ str_of_nat (length cs)]
          ++ mods
    ∧ (mods = [] ∨ ∃ mm ml, mods = ["MM:Z:" +:+ mm; "ML:B:" +:+ ml]).
Proof using Type.
  intros Hsplit Hk Hc.
  destruct (split_child_inv self ps cs _ c Hsplit Hc)
    as (_ & mb & [start end_] & _ & Hiv & ->).
  exists start, end_, (expected_mod_tags (AlignData.seq self) mb (start, end_)).
  split_and!; [done | | done |].
  - cbn [AlignData.name expected_child AlignData.make].
    unfold AlignData.subread_name. by replace (k - 1 + 1)%nat with k by lia.
  - destruct mb as [[|item mb]|]; cbn [expected_mod_tags]; eauto.
Qed.

End Specification.

(** * The properties at concrete reads *)

(** A cut offset past the end of the read gives intervals that do not tile
    it: the second one runs backwards. *)
Lemma split_past_end_not_tiling :
  AlignData.split sam_mod_tags modified_read_bases plain_read [10]
  = Ok [AlignData.make "read1:1_2" "AACATGAA" "IIIIIIII"
          ["MI:Z:read1"; "Xc:B:i,0,10,0,2"];
        AlignData.make "read1:2_2" "" "" ["MI:Z:read1"; "Xc:B:i,10,8,1,2"]]
  ∧ AlignData.intervals plain_read [10] = [(0, 10); (10, 8)]
  ∧ ¬ tiles 0 (AlignData.read_length plain_read)
        (AlignData.intervals plain_read [10])
  ∧ mjoin (interval_points <$> AlignData.intervals plain_read [10])
    ≠ interval_points (0, AlignData.read_length plain_read).
Proof.
  split_and!.
  - by vm_compute.
  - by vm_compute.
  - change (AlignData.intervals plain_read [10]) with [(0, 10); (10, 8)].
    cbn. lia.
  - by vm_compute.
Qed.

Lemma split_intervals_tile_witness :
  Forall (in_range (AlignData.read_length plain_read)) [4]
  ∧ tiles 0 (AlignData.read_length plain_read) (AlignData.intervals plain_read [4])
  ∧ cat (AlignData.seq <$> plain_read_children) = AlignData.seq plain_read.
Proof.
  assert (Hps : Forall (in_range (AlignData.read_length plain_read)) [4]).
  { repeat constructor; vm_compute; discriminate. }
  destruct (split_intervals_tile sam_mod_tags modified_read_bases plain_read [4] Hps)
    as (Ht & _ & Hcs).
  split_and!; [exact Hps | exact Ht |].
  apply (Hcs plain_read_children). by vm_compute.
Defined.

(** A repeated cut offset is kept, and gives an empty interval that the
    sorted and deduplicated offsets would not give. *)
Lemma split_keeps_repeated_offset :
  AlignData.intervals plain_read [4; 4] = [(0, 4); (4, 4); (4, 8)]
  ∧ intervals_of (spec_positions (AlignData.read_length plain_read) [4; 4])
    = [(0, 4); (4, 8)]
  ∧ AlignData.intervals plain_read [4; 4]
    ≠ intervals_of (spec_positions (AlignData.read_length plain_read) [4; 4]).
Proof. split_and!; by vm_compute. Qed.

Lemma split_positions_sorted_padded_witness :
  [4; 2] ≠ []
  ∧ split_positions (AlignData.read_length plain_read) [4; 2]
    = spec_positions (AlignData.read_length plain_read) [4; 2].
Proof.
  assert (Hne : [4; 2] ≠ []) by discriminate.
  destruct (split_positions_sorted_padded plain_read [4; 2] Hne)
    as (_ & _ & _ & _ & _ & Hspec).
  split; [exact Hne |]. apply Hspec.
  - repeat constructor; vm_compute; discriminate.
  - apply (bool_decide_unpack _). by vm_compute.
Defined.

(** An offset outside the read is accepted: the split succeeds and uses
    the offset as it is. *)
Lemma split_accepts_offset_past_end :
  ¬ in_range (AlignData.read_length plain_read) 10
  ∧ 10 ∈ split_positions (AlignData.read_length plain_read) [10]
  ∧ ∃ cs, AlignData.split sam_mod_tags modified_read_bases plain_read [10] = Ok cs.
Proof.
  split_and!.
  - unfold in_range. change (AlignData.read_length plain_read) with 8. lia.
  - apply (bool_decide_unpack _). by vm_compute.
  - eexists. by vm_compute.
Qed.

Lemma split_offsets_not_validated_witness :
  AlignData.has_mods sam_mod_tags plain_read = false
  ∧ ∃ cs, AlignData.split sam_mod_tags modified_read_bases plain_read [10] = Ok cs.
Proof.
  assert (Hm : AlignData.has_mods sam_mod_tags plain_read = false) by by vm_compute.
  split; [exact Hm |].
  by apply (split_offsets_not_validated sam_mod_tags modified_read_bases plain_read [10]).
Defined.

Lemma modification_counts_checked_witness :
  (∃ c, AlignData.get_subread sam_mod_tags modified_read 0 5 "read3:1_2" true true
          (Some (0, 2)%nat) (Some [(Key3 "C" 0 (ModChar "m"), [(2, 230); (7, 204)])])
        = Ok c
        ∧ AlignData.tags c
          = ["MI:Z:read3"; "Xc:B:i,0,5,0,2"; "MM:Z:C+m,0;"; "ML:B:C,230;"])
  ∧ AlignData.get_subread sam_mod_tags modified_read 0 5 "read3:1_2" true true
      (Some (0, 2)%nat) (Some [(Key3 "C" 0 (ModChar "m"), [(2, 230); (3, 204)])])
    = Err AssertionError.
Proof.
  split.
  - eexists. split; by vm_compute.
  - apply (modification_counts_checked sam_mod_tags modified_read 0 5).
    exists (Key3 "C" 0 (ModChar "m"), [(2, 230); (3, 204)]).
    split; [by left |]. split; [by vm_compute |]. vm_compute. discriminate.
Defined.

Lemma modifications_selected_within_interval_witness :
  pairs_within 0 1 [(2, 230); (7, 204)] = []
  ∧ mod_tags "A" 0 1 (Some [(Key3 "C" 0 (ModChar "m"), [(2, 230); (7, 204)])])
    = Ok ["MM:Z:"; "ML:B:"].
Proof.
  assert (Hnone : pairs_within 0 1 [(2, 230); (7, 204)] = []) by by vm_compute.
  split; [exact Hnone |].
  by apply (modifications_selected_within_interval "A" 0 1
              (Key3 "C" 0 (ModChar "m")) [(2, 230); (7, 204)]).
Defined.

(** Without any cut, a record with modification tags yields no child when
    the decoded offset does not lie on the canonical base, or when the
    decoding raises. *)
Lemma split_without_cuts_raises :
  AlignData.has_mods sam_mod_tags reverse_read = true
  ∧ AlignData.split sam_mod_tags reverse_read_bases reverse_read []
    = Err AssertionError
  ∧ AlignData.split sam_mod_tags failing_decoder reverse_read []
    = Err (PysamError "malformed modification tag")
  ∧ ¬ (∃ c, AlignData.split sam_mod_tags reverse_read_bases reverse_read []
            = Ok [c]).
Proof.
  assert (Herr : AlignData.split sam_mod_tags reverse_read_bases reverse_read []
                 = Err AssertionError) by by vm_compute.
  split_and!; [by vm_compute | exact Herr | by vm_compute |].
  intros [c Hc]. rewrite Herr in Hc. discriminate.
Qed.

Lemma split_without_cuts_witness :
  AlignData.has_mods sam_mod_tags modified_read = true
  ∧ mods_ok (AlignData.seq modified_read)
      (Some [(Key3 "C" 0 (ModChar "m"), [(2, 230); (7, 204)])])
      (0, AlignData.read_length modified_read) = true
  ∧ ∃ c, AlignData.split sam_mod_tags modified_read_bases modified_read [] = Ok [c]
         ∧ AlignData.seq c = AlignData.seq modified_read
         ∧ AlignData.name c = AlignData.name modified_read +:+ ":1_1".
Proof.
  assert (Hm : AlignData.has_mods sam_mod_tags modified_read = true) by by vm_compute.
  assert (Hok : mods_ok (AlignData.seq modified_read)
                  (Some [(Key3 "C" 0 (ModChar "m"), [(2, 230); (7, 204)])])
                  (0, AlignData.read_length modified_read) = true) by by vm_compute.
  split_and!; [exact Hm | exact Hok |].
  destruct (split_without_cuts sam_mod_tags modified_read_bases modified_read)
    as (_ & Hdecoded & _ & _).
  exact (Hdecoded _ Hm eq_refl Hok).
Defined.

Lemma to_fastq_needs_quality_witness :
  AlignData.qual bare_read = "*"
  ∧ ∃ e, AlignData.to_fastq bare_read true = Err e.
Proof.
  assert (Hq : AlignData.qual bare_read = "*") by done.
  split; [exact Hq |].
  by apply (to_fastq_needs_quality bare_read true).
Defined.

Lemma children_quality_sliced_witness :
  AlignData.split sam_mod_tags modified_read_bases bare_read [2]
  = Ok bare_read_children
  ∧ ∀ i c, bare_read_children !! i = Some c →
      ∃ iv, AlignData.intervals bare_read [2] !! i = Some iv
        ∧ AlignData.qual c = py_slice (AlignData.qual bare_read) iv.1 iv.2
        ∧ (AlignData.qual bare_read = "*" → iv.1 = 0 → 1 ≤ iv.2 →
           AlignData.qual c = "*")
        ∧ (AlignData.qual bare_read = "*" → 1 ≤ iv.1 →
           AlignData.qual c = ""
           ∧ ∀ with_tags, ∃ text, AlignData.to_fastq c with_tags = Ok text).
Proof.
  assert (Hsplit : AlignData.split sam_mod_tags modified_read_bases bare_read [2]
                   = Ok bare_read_children) by by vm_compute.
  split; [exact Hsplit |].
  apply (children_quality_sliced sam_mod_tags modified_read_bases bare_read [2]
           bare_read_children Hsplit).
Defined.

Lemma children_get_both_mod_tags_witness :
  AlignData.has_mods sam_mod_tags modified_read = true
  ∧ AlignData.split sam_mod_tags modified_read_bases modified_read [1]
    = Ok modified_read_children
  ∧ ∃ c mm ml,
      modified_read_children !! 0%nat = Some c
      ∧ AlignData.tags c
        = AlignData.kept_tags sam_mod_tags true (AlignData.tags modified_read)
            ++ ["MI:Z:" +:+ AlignData.name modified_read;
                AlignData.xc_tag 0 1 (0, 2)%nat; "MM:Z:" +:+ mm; "ML:B:" +:+ ml]
      ∧ mm = "" ∧ ml = "".
Proof.
  assert (Hm : AlignData.has_mods sam_mod_tags modified_read = true) by by vm_compute.
  assert (Hsplit : AlignData.split sam_mod_tags modified_read_bases modified_read [1]
                   = Ok modified_read_children) by by vm_compute.
  split_and!; [exact Hm | exact Hsplit |].
  destruct (children_get_both_mod_tags sam_mod_tags modified_read_bases
              modified_read [1] _ modified_read_children Hm eq_refl
              ltac:(discriminate) Hsplit 0%nat _ eq_refl)
    as (iv & mm & ml & Hiv & Htags & Hnone).
  injection Hiv as <-.
  eexists _, mm, ml. split_and!; [done | exact Htags | |]; apply Hnone;
    intros item ->%list_elem_of_singleton; by vm_compute.
Defined.

Lemma child_name_and_xc_tag_witness :
  AlignData.split sam_mod_tags modified_read_bases plain_read [4]
  = Ok plain_read_children
  ∧ ∃ c, plain_read_children !! 1%nat = Some c
         ∧ AlignData.name c = "read1:2_2"
         ∧ "Xc:B:i,4,8,1,2" ∈ AlignData.tags c.
Proof.
  assert (Hsplit : AlignData.split sam_mod_tags modified_read_bases plain_read [4]
                   = Ok plain_read_children) by by vm_compute.
  split; [exact Hsplit |].
  destruct (child_name_and_xc_tag sam_mod_tags modified_read_bases plain_read [4]
              plain_read_children 2 _ Hsplit ltac:(lia) eq_refl)
    as (start & end_ & mods & Hiv & Hname & Htags & _).
  injection Hiv as <- <-.
  eexists. split_and!; [done | exact Hname |].
  rewrite Htags. apply elem_of_app. right. apply elem_of_app. left.
  apply (bool_decide_unpack _). by vm_compute.
Defined.

(** * Further properties of the module *)

(** ** Helper facts *)

Lemma split_positions_shape (n : Z) (ps : list Z) :
  ps ≠ [] →
  split_positions n ps
  = (if bool_decide (head (sorted ps) ≠ Some 0) then [0] else [])
      ++ sorted ps
      ++ (if bool_decide (last (sorted ps) ≠ Some n) then [n] else []).
Proof.
  intros Hne. unfold split_positions. destruct ps as [|p ps]; [done |].
  destruct (sorted (p :: ps)) as [|x srt] eqn:Hs.
  { by apply sorted_nil_inv in Hs. }
  destruct (bool_decide (head (x :: srt) ≠ Some 0)); cbn [app];
    rewrite ?last_cons_cons;
    destruct (bool_decide (last (x :: srt) ≠ Some n)); cbn [app];
    by rewrite ?app_nil_r.
Qed.

Lemma intervals_of_length (l : list Z) :
  length (intervals_of l) = pred (length l).
Proof.
  destruct l as [|x l]; [done |].
  revert x; induction l as [|y l IH]; intros x; [done |].
  rewrite intervals_of_cons. cbn [length]. by rewrite IH.
Qed.

Lemma intervals_of_lookup (l : list Z) (i : nat) (s e : Z) :
  intervals_of l !! i = Some (s, e) ↔ l !! i = Some s ∧ l !! S i = Some e.
Proof.
  revert i. destruct l as [|x l].
  { intros i. change (intervals_of []) with (@nil (Z * Z)).
    rewrite !lookup_nil. split; [done | by intros [? _]]. }
  revert x; induction l as [|y l IH]; intros x i.
  - change (intervals_of [x]) with (@nil (Z * Z)). rewrite lookup_nil.
    split; [done |]. intros [_ H]. by rewrite lookup_cons, lookup_nil in H.
  - rewrite intervals_of_cons. destruct i as [|i].
    + rewrite !lookup_cons. split; [by intros [= -> ->] | by intros [[= ->] [= ->]]].
    + rewrite (lookup_cons _ _ (S i)), (lookup_cons x), (lookup_cons x _ (S (S i))).
      apply IH.
Qed.

Lemma sorted_length (l : list Z) : length (sorted l) = length l.
Proof. by rewrite sorted_Permutation. Qed.

Lemma substring_length (n m : nat) (s : string) :
  String.length (String.substring n m s) = Nat.min m (String.length s - n).
Proof.
  revert n m; induction s as [|c s IH]; intros [|n] [|m];
    cbn [String.substring String.length]; rewrite ?IH; lia.
Qed.

Lemma py_slice_length_eq (s1 s2 : string) (a b : Z) :
  String.length s1 = String.length s2 →
  String.length (py_slice s1 a b) = String.length (py_slice s2 a b).
Proof. intros Hlen. unfold py_slice. by rewrite !substring_length, Hlen. Qed.

Lemma tag_key_mi (name : string) : tag_key ("MI:Z:" +:+ name) = "MI".
Proof. reflexivity. Qed.

Lemma tag_key_xc (start end_ : Z) (idx : nat * nat) :
  tag_key (AlignData.xc_tag start end_ idx) = "Xc".
Proof. reflexivity. Qed.

Lemma tag_key_mm (payload : string) : tag_key ("MM:Z:" +:+ payload) = "MM".
Proof. reflexivity. Qed.

Lemma tag_key_ml (payload : string) : tag_key ("ML:B:" +:+ payload) = "ML".
Proof. reflexivity. Qed.

Lemma app_length_str (a b : string) :
  String.length (a +:+ b) = (String.length a + String.length b)%nat.
Proof. induction a as [|c a IH]; [done |]. rewrite app_String. cbn. by rewrite IH. Qed.

Lemma app_inj_r (a b t : string) : a +:+ t = b +:+ t → a = b.
Proof.
  intros Heq.
  assert (Hlen : String.length a = String.length b).
  { apply (f_equal String.length) in Heq.
    rewrite !app_length_str in Heq. lia. }
  revert b Heq Hlen; induction a as [|c a IH]; intros [|d b] Heq Hlen;
    cbn in Hlen; try done.
  rewrite !app_String in Heq. injection Heq as -> Heq.
  f_equal. apply IH; [done | lia].
Qed.

Lemma kept_tags_no_mi (MOD_TAGS : gset string) (ts : list string) :
  filter (λ t, tag_key t = "MI") (AlignData.kept_tags MOD_TAGS true ts) = [].
Proof.
  induction ts as [|t ts IH]; [done |].
  cbn [AlignData.kept_tags]. case_bool_decide; [done |].
  rewrite andb_true_r. destruct (String.eqb_spec (tag_key t) "MI"); [done |].
  by rewrite filter_cons_False.
Qed.

Lemma kept_tags_no_mod (MOD_TAGS : gset string) (ts : list string) :
  AlignData.any_mod_tag MOD_TAGS ts = false →
  AlignData.any_mod_tag MOD_TAGS (AlignData.kept_tags MOD_TAGS true ts) = false.
Proof.
  induction ts as [|t ts IH]; [done |].
  cbn [AlignData.kept_tags AlignData.any_mod_tag].
  case_bool_decide as Hk; [done |]. intros Hts.
  destruct (String.eqb (tag_key t) "MI" && true); [by apply IH |].
  cbn [AlignData.any_mod_tag]. rewrite bool_decide_eq_false_2 by done. by apply IH.
Qed.

Lemma any_mod_tag_app (MOD_TAGS : gset string) (l1 l2 : list string) :
  AlignData.any_mod_tag MOD_TAGS (l1 ++ l2)
  = AlignData.any_mod_tag MOD_TAGS l1 || AlignData.any_mod_tag MOD_TAGS l2.
Proof.
  induction l1 as [|t l1 IH]; [done |].
  cbn [app AlignData.any_mod_tag]. by case_bool_decide.
Qed.

Lemma sorted_lookup_le (l : list Z) (i : nat) (x y : Z) :
  Sorted Z.le l → l !! i = Some x → l !! S i = Some y → x ≤ y.
Proof.
  intros Hs%(Sorted_StronglySorted _). revert i.
  induction Hs as [|a l Hs IH Hall]; intros i; [done |].
  destruct i as [|i]; cbn.
  - intros [= ->] Hy. rewrite Forall_forall in Hall. apply Hall.
    by eapply list_elem_of_lookup_2.
  - apply IH.
Qed.

Lemma split_positions_NoDup (n : Z) (ps : list Z) :
  0 ≤ n → ps ≠ [] → NoDup ps → Forall (in_range n) ps →
  NoDup (split_positions n ps).
Proof.
  intros Hn Hne Hnd Hall. rewrite split_positions_shape by done.
  assert (Hsne : sorted ps ≠ []) by (intros H%sorted_nil_inv; done).
  apply (sorted_Forall _ _) in Hall.
  assert (Hsnd : NoDup (sorted ps)) by by rewrite sorted_Permutation.
  assert (H0 : Forall (Z.le 0) (sorted ps))
    by (eapply Forall_impl; [exact Hall |]; unfold in_range; intros; lia).
  assert (Hle : Forall (λ p, p ≤ n) (sorted ps))
    by (eapply Forall_impl; [exact Hall |]; unfold in_range; intros; lia).
  pose proof (head_absent _ (sorted_Sorted ps) H0) as Hhead.
  pose proof (last_absent n _ (sorted_Sorted ps) Hle) as Hlast.
  assert (Hsuf : NoDup (sorted ps ++
            (if bool_decide (last (sorted ps) ≠ Some n) then [n] else []))).
  { case_bool_decide as Hl; [| by rewrite app_nil_r].
    apply NoDup_app. split_and!; [done | | apply NoDup_singleton].
    intros x Hx Hxn%list_elem_of_singleton. subst x. by apply Hlast in Hl. }
  destruct (decide (head (sorted ps) ≠ Some 0)) as [Hh|Hh];
    [rewrite (bool_decide_eq_true_2 _ Hh) | by rewrite (bool_decide_eq_false_2 _ Hh)].
  cbn [app]. apply NoDup_cons. split; [| exact Hsuf].
  intros [Hin|Hin]%elem_of_app; [by apply Hhead in Hh |].
  case_bool_decide; [| by apply elem_of_nil in Hin].
  apply list_elem_of_singleton in Hin. subst n.
  destruct (sorted ps) as [|x srt]; [done |].
  apply Forall_cons in Hall as [Hx _]. unfold in_range in Hx.
  apply Hh. cbn. f_equal. lia.
Qed.

Lemma py_slice_length_in_range (s : string) (a b : Z) :
  0 ≤ a → a ≤ b → b ≤ Z.of_nat (String.length s) →
  Z.of_nat (String.length (py_slice s a b)) = b - a.
Proof.
  intros. rewrite py_slice_in_range by lia. rewrite substring_length. lia.
Qed.

Lemma slice_bound_min (n i : Z) : 0 ≤ i → slice_bound n i = Z.min i n.
Proof. intros Hi. unfold slice_bound. by destruct (Z.ltb_spec i 0); [lia |]. Qed.

(** For bounds that are not negative, slicing clamps them to the length. *)
Lemma py_slice_clamp (s : string) (a b : Z) :
  0 ≤ a → 0 ≤ b →
  py_slice s a b
  = py_slice s (Z.min a (Z.of_nat (String.length s)))
      (Z.min b (Z.of_nat (String.length s))).
Proof.
  intros Ha Hb. unfold py_slice.
  rewrite !slice_bound_min by lia. by rewrite <- !Z.min_assoc, !Z.min_id.
Qed.

Lemma intervals_of_fmap (f : Z → Z) (l : list Z) :
  intervals_of (f <$> l) = (λ iv, (f iv.1, f iv.2)) <$> intervals_of l.
Proof.
  destruct l as [|x l]; [done |].
  revert x; induction l as [|y l IH]; intros x; [done |].
  rewrite !fmap_cons, !intervals_of_cons, fmap_cons. f_equal.
  by rewrite <- IH.
Qed.

Lemma intervals_of_Forall (P : Z → Prop) (l : list Z) :
  Forall P l → Forall (λ iv, P iv.1 ∧ P iv.2) (intervals_of l).
Proof.
  destruct l as [|x l]; [constructor |].
  revert x; induction l as [|y l IH]; intros x Hall; [constructor |].
  rewrite intervals_of_cons. apply Forall_cons in Hall as [Hx Hall].
  constructor; [| by apply IH].
  apply Forall_cons in Hall as [Hy _]. done.
Qed.

(** The offsets of [split_positions], clamped to the read, run from 0 to
    its length without ever decreasing, when no offset is negative. *)
Lemma clamped_positions_tile (n : Z) (ps : list Z) :
  0 ≤ n → Forall (Z.le 0) ps →
  Forall (Z.le 0) (split_positions n ps)
  ∧ tiles 0 n (intervals_of ((λ p, Z.min p n) <$> split_positions n ps)).
Proof.
  intros Hn Hps.
  destruct (decide (ps = [])) as [-> | Hne].
  { split; [by repeat constructor |].
    cbn. rewrite Z.min_id. replace (Z.min 0 n) with 0 by lia. lia. }
  rewrite split_positions_shape by done.
  assert (Hsne : sorted ps ≠ []) by (intros H%sorted_nil_inv; done).
  apply (sorted_Forall _ _) in Hps.
  pose proof (sorted_Sorted ps) as Hs.
  set (srt := sorted ps) in *. clearbody srt.
  set (pre := if bool_decide (head srt ≠ Some 0) then [0] else []).
  set (suf := if bool_decide (last srt ≠ Some n) then [n] else []).
  assert (Hnn : Forall (Z.le 0) (pre ++ srt ++ suf)).
  { rewrite !Forall_app. split_and!; [| done |].
    - unfold pre. case_bool_decide; by repeat constructor.
    - unfold suf. case_bool_decide; by repeat constructor. }
  split; [done |].
  set (cl := λ p : Z, Z.min p n).
  assert (Hcs : Sorted Z.le (cl <$> srt)).
  { apply (Sorted_fmap cl Z.le Z.le); [| done]. intros x y Hxy. unfold cl. lia. }
  assert (Hcr : Forall (in_range n) (cl <$> srt)).
  { apply Forall_fmap. eapply Forall_impl; [exact Hps |].
    intros x Hx. unfold in_range, cl. cbn. lia. }
  assert (Hshape : ∃ l, cl <$> pre ++ srt ++ suf = 0 :: l
                     ∧ last (0 :: l) = Some n ∧ Sorted Z.le (0 :: l)).
  { rewrite !fmap_app.
    assert (Hmid : ∃ l, (cl <$> pre) ++ (cl <$> srt) = 0 :: l
                     ∧ Sorted Z.le (0 :: l) ∧ Forall (in_range n) (0 :: l)
                     ∧ last (0 :: l) = cl <$> last srt).
    { unfold pre. case_bool_decide as Hh.
      - exists (cl <$> srt). cbn [fmap list_fmap app].
        replace (cl 0) with 0 by (unfold cl; lia). split_and!; [done | | |].
        + apply Sorted_cons_le; [done |].
          eapply Forall_impl; [exact Hcr |]. unfold in_range; intros; lia.
        + constructor; [unfold in_range; lia | done].
        + destruct srt as [|x srt']; [done |].
          by rewrite fmap_cons, last_cons_cons, <- fmap_cons, fmap_last.
      - apply head_Some in Hh as [l' ->]. exists (cl <$> l').
        cbn [fmap list_fmap app].
        rewrite fmap_cons in Hcs, Hcr. replace (cl 0) with 0 in * by (unfold cl; lia).
        split_and!; [done | done | done |].
        by rewrite <- fmap_last, fmap_cons; replace (cl 0) with 0 by (unfold cl; lia). }
    destruct Hmid as (l & Hl & Hls & Hlr & Hll).
    rewrite app_assoc, Hl. unfold suf. case_bool_decide as Hla.
    - exists (l ++ [n]). cbn [fmap list_fmap].
      replace (cl n) with n by (unfold cl; lia).
      split_and!; [done | by rewrite app_comm_cons, last_snoc |].
      rewrite app_comm_cons. apply Sorted_snoc_ge; [done |].
      eapply Forall_impl; [exact Hlr |]. unfold in_range; intros; lia.
    - exists l. rewrite app_nil_r. split_and!; [done | | done].
      rewrite Hll, Hla. cbn. f_equal. unfold cl. lia. }
  destruct Hshape as (l & -> & Hlast & Hsorted).
  pose proof (intervals_of_tiles 0 l Hsorted) as Ht. by rewrite Hlast in Ht.
Qed.

Lemma substring_of_prefix (c m l : nat) (s : string) :
  String.substring c m (String.substring 0 l s)
  = String.substring c (Nat.min m (l - c)) s.
Proof.
  revert c m l; induction s as [|x s IH]; intros c m l.
  - by destruct l, c, m, (Nat.min _ _).
  - destruct l as [|l].
    + replace (Nat.min m (0 - c)) with 0%nat by lia.
      rewrite !substring_none. by destruct c, m.
    + cbn [String.substring]. destruct c as [|c].
      * destruct m as [|m]; [done |].
        cbn [String.substring Nat.min Nat.sub]. f_equal.
        rewrite (IH 0%nat). by rewrite Nat.sub_0_r.
      * cbn [String.substring Nat.sub]. apply IH.
Qed.

Lemma substring_substring (a l c m : nat) (s : string) :
  String.substring c m (String.substring a l s)
  = String.substring (a + c) (Nat.min m (l - c)) s.
Proof.
  revert a; induction s as [|x s IH]; intros a.
  - destruct a.
    + apply substring_of_prefix.
    + cbn [String.substring Nat.add]. by destruct c, m.
  - destruct a as [|a]; [apply substring_of_prefix |].
    cbn [String.substring Nat.add]. apply IH.
Qed.

(** A slice of a slice is a slice of the whole, at shifted bounds. *)
Lemma py_slice_py_slice (s : string) (a b c d : Z) :
  0 ≤ a → a ≤ b → b ≤ Z.of_nat (String.length s) →
  0 ≤ c → c ≤ d → d ≤ b - a →
  py_slice (py_slice s a b) c d = py_slice s (a + c) (a + d).
Proof.
  intros.
  rewrite (py_slice_in_range (py_slice s a b))
    by (rewrite py_slice_length_in_range; lia).
  rewrite !py_slice_in_range by lia.
  rewrite substring_substring. f_equal; lia.
Qed.

(** ** Splitting *)

Section Splitting.

Variable MOD_TAGS : gset string.
Variable pysam_modified_bases : AlignData.t → result modified_bases_t.

Local Abbreviation split := (AlignData.split MOD_TAGS pysam_modified_bases).

(** X1: cut offsets that all lie strictly inside the read, in any order
    and with repetitions, give one child more than there are offsets. *)
Theorem interior_cuts_child_count (self : AlignData.t) (ps : list Z)
    (cs : list AlignData.t) :
  Forall (λ p, 0 < p < AlignData.read_length self) ps →
  split self ps = Ok cs →
  length cs = S (length ps).
Proof using Type.
  intros Hps (mb & _ & _ & ->)%split_Ok_inv.
  rewrite length_imap. unfold AlignData.intervals. rewrite intervals_of_length.
  destruct (decide (ps = [])) as [-> | Hne]; [done |].
  rewrite split_positions_shape by done.
  apply (sorted_Forall _ _) in Hps.
  assert (Hsne : sorted ps ≠ []) by (intros H%sorted_nil_inv; done).
  rewrite bool_decide_eq_true_2.
  2:{ intros Hhd. apply head_Some_elem_of in Hhd.
      rewrite Forall_forall in Hps. specialize (Hps _ Hhd). lia. }
  rewrite bool_decide_eq_true_2.
  2:{ intros Hl. apply last_Some_elem_of in Hl.
      rewrite Forall_forall in Hps. specialize (Hps _ Hl). lia. }
  cbn [app length]. rewrite length_app, sorted_length. cbn [length]. lia.
Qed.

(** X2: a successful split returns no child at all in one case only: the
    read is empty and the offsets are the single offset 0. *)
Theorem split_no_children_iff (self : AlignData.t) (ps : list Z)
    (cs : list AlignData.t) :
  split self ps = Ok cs →
  (cs = [] ↔ ps = [0] ∧ AlignData.seq self = "").
Proof using Type.
  intros (mb & _ & _ & ->)%split_Ok_inv.
  rewrite <- length_zero_iff_nil, length_imap.
  unfold AlignData.intervals. rewrite intervals_of_length.
  split.
  - destruct (decide (ps = [])) as [-> | Hne]; [done |].
    rewrite split_positions_shape by done.
    assert (Hsne : sorted ps ≠ []) by (intros H%sorted_nil_inv; done).
    destruct (sorted ps) as [|x [|y srt]] eqn:Hs; [done | |].
    + assert (Hps : ps = [x]).
      { apply Permutation_singleton_r. rewrite <- Hs. symmetry.
        apply sorted_Permutation. }
      cbn [head last].
      destruct (decide (x = 0)) as [-> | Hx0].
      2:{ rewrite bool_decide_eq_true_2 by congruence.
          rewrite !length_app. cbn [length]. lia. }
      destruct (decide (0 = AlignData.read_length self)) as [Hn | Hn].
      2:{ rewrite (bool_decide_eq_true_2 (_ ≠ Some (AlignData.read_length self)))
            by congruence.
          rewrite !length_app. cbn [length]. lia. }
      intros _. split; [done |].
      unfold AlignData.read_length in Hn.
      by destruct (AlignData.seq self).
    + rewrite !length_app. cbn [length]. lia.
  - intros [-> Hseq]. unfold AlignData.read_length. by rewrite Hseq.
Qed.

(** X3: the children depend on the offsets only as a multiset: the order
    in which the cut offsets are given does not matter. *)
Theorem split_order_irrelevant (self : AlignData.t) (ps ps' : list Z) :
  ps ≡ₚ ps' → split self ps = split self ps'.
Proof using Type.
  intros Hperm.
  assert (Hpos : ∀ n, split_positions n ps = split_positions n ps').
  { intros n. destruct (decide (ps = [])) as [-> | Hne].
    - by apply Permutation_nil_l in Hperm as ->.
    - assert (Hne' : ps' ≠ []) by (intros ->; by apply Permutation_nil_r in Hperm).
      rewrite !split_positions_shape by done.
      assert (sorted ps = sorted ps') as ->; [| done].
      apply (Sorted_unique Z.le); [apply sorted_Sorted | apply sorted_Sorted |].
      by rewrite !sorted_Permutation. }
  unfold AlignData.split, AlignData.intervals. by rewrite Hpos.
Qed.

(** X4: the children of one split have pairwise different names. *)
Theorem children_names_distinct (self : AlignData.t) (ps : list Z)
    (cs : list AlignData.t) :
  split self ps = Ok cs → NoDup (AlignData.name <$> cs).
Proof using Type.
  intros (mb & _ & _ & ->)%split_Ok_inv.
  apply NoDup_alt. intros i j nm.
  rewrite !list_lookup_fmap, !list_lookup_imap.
  destruct (AlignData.intervals self ps !! i) as [iv|]; [| done].
  destruct (AlignData.intervals self ps !! j) as [iv'|]; [| done].
  cbn. intros [= <-] [= Heq]. unfold AlignData.subread_name in Heq.
  apply (inj (String.app _)) in Heq. apply (inj (String.app _)) in Heq.
  apply app_inj_r in Heq. apply (inj pretty) in Heq. lia.
Qed.

(** X5: every child carries exactly one MI tag, and it names the record
    that was split: an MI tag of the parent is replaced, not kept. *)
Theorem child_has_one_mi_tag (self : AlignData.t) (ps : list Z)
    (cs : list AlignData.t) (c : AlignData.t) :
  split self ps = Ok cs → c ∈ cs →
  filter (λ t, tag_key t = "MI") (AlignData.tags c)
  = ["MI:Z:" +:+ AlignData.name self].
Proof using Type.
  intros (mb & _ & _ & ->)%split_Ok_inv Hc.
  apply elem_of_lookup_imap in Hc as (i & iv & -> & _).
  cbn [AlignData.tags expected_child AlignData.make].
  rewrite !filter_app, kept_tags_no_mi, app_nil_l.
  rewrite filter_cons_True by apply tag_key_mi.
  rewrite filter_cons_False by (by rewrite tag_key_xc).
  rewrite filter_nil.
  destruct mb as [[|item mb]|]; cbn [expected_mod_tags]; [done | | done].
  rewrite filter_cons_False by (by rewrite tag_key_mm).
  by rewrite filter_cons_False by (by rewrite tag_key_ml).
Qed.

(** X6: when MOD_TAGS holds neither "MI" nor "Xc", the children of a record
    without modification tags have no modification tags either, so each
    of them can be split again, at any offsets, without error. *)
Theorem children_of_plain_record_split_again (self : AlignData.t)
    (ps : list Z) (cs : list AlignData.t) (c : AlignData.t) :
  "MI" ∉ MOD_TAGS → "Xc" ∉ MOD_TAGS →
  AlignData.has_mods MOD_TAGS self = false →
  split self ps = Ok cs → c ∈ cs →
  AlignData.has_mods MOD_TAGS c = false
  ∧ ∀ qs, ∃ gcs, split c qs = Ok gcs ∧ length gcs = length (AlignData.intervals c qs).
Proof using Type.
  intros Hmi Hxc Hm Hsplit Hc.
  rewrite split_no_mods in Hsplit by done. injection Hsplit as <-.
  apply elem_of_lookup_imap in Hc as (i & iv & -> & _).
  assert (Hcm : AlignData.has_mods MOD_TAGS
                  (expected_child MOD_TAGS self
                     (length (AlignData.intervals self ps)) None i iv) = false).
  { unfold AlignData.has_mods.
    cbn [AlignData.tags expected_child AlignData.make expected_mod_tags].
    rewrite !any_mod_tag_app, kept_tags_no_mod by done.
    cbn [AlignData.any_mod_tag orb]. unfold AlignData.mi_tag.
    rewrite tag_key_mi, tag_key_xc.
    by rewrite !bool_decide_eq_false_2 by done. }
  split; [done |]. intros qs. eexists. split; [by apply split_no_mods |].
  by rewrite length_imap.
Qed.

(** X7: if the parent's sequence and quality have the same length, so
    have the sequence and quality of every child, whatever the offsets. *)
Theorem children_keep_equal_lengths (self : AlignData.t) (ps : list Z)
    (cs : list AlignData.t) (c : AlignData.t) :
  String.length (AlignData.seq self) = String.length (AlignData.qual self) →
  split self ps = Ok cs → c ∈ cs →
  String.length (AlignData.seq c) = String.length (AlignData.qual c).
Proof using Type.
  intros Hlen (mb & _ & _ & ->)%split_Ok_inv Hc.
  apply elem_of_lookup_imap in Hc as (i & iv & -> & _).
  by apply py_slice_length_eq.
Qed.

(** X8: for cut offsets inside the read, the child of the interval
    (start, end) holds exactly end - start bases, and when the offsets are
    moreover non-empty and free of repetitions no child is empty. *)
Theorem child_sequence_length (self : AlignData.t) (ps : list Z)
    (cs : list AlignData.t) (i : nat) (c : AlignData.t) :
  Forall (in_range (AlignData.read_length self)) ps →
  split self ps = Ok cs → cs !! i = Some c →
  ∃ start end_,
    AlignData.intervals self ps !! i = Some (start, end_)
    ∧ 0 ≤ start ∧ start ≤ end_ ∧ end_ ≤ AlignData.read_length self
    ∧ Z.of_nat (String.length (AlignData.seq c)) = end_ - start
    ∧ (ps ≠ [] → NoDup ps → start < end_).
Proof using Type.
  intros Hps Hsplit Hc.
  destruct (split_child_inv _ _ self ps cs i c Hsplit Hc)
    as (_ & mb & [start end_] & _ & Hiv & ->).
  exists start, end_. split; [done |].
  pose proof (read_length_nonneg self) as Hn.
  destruct (split_positions_in_range _ ps Hn Hps) as (l & Hpos & _ & Hs & Hr).
  unfold AlignData.intervals in Hiv.
  apply intervals_of_lookup in Hiv as [Hi HSi].
  assert (Hle : start ≤ end_).
  { apply (sorted_lookup_le (split_positions (AlignData.read_length self) ps) i);
      [by rewrite Hpos | done | done]. }
  rewrite <- Hpos in Hr. rewrite Forall_forall in Hr.
  pose proof (Hr _ (list_elem_of_lookup_2 _ _ _ Hi)) as [? ?].
  pose proof (Hr _ (list_elem_of_lookup_2 _ _ _ HSi)) as [? ?].
  split_and!; [done | done | done | |].
  - cbn [AlignData.seq expected_child AlignData.make fst snd].
    apply py_slice_length_in_range; unfold AlignData.read_length in *; lia.
  - intros Hne Hnd.
    pose proof (split_positions_NoDup _ ps Hn Hne Hnd Hps) as Hpnd.
    destruct (decide (start = end_)) as [-> | ?]; [| lia].
    pose proof (NoDup_lookup _ _ _ _ Hpnd Hi HSi). lia.
Qed.

(** X9: when no cut offset is negative, the sequences of the children, in
    the returned order, concatenate to the parent's sequence, also when
    offsets lie beyond the end of the read; so do the qualities when the
    quality is as long as the sequence. *)
Theorem children_concatenate_to_parent (self : AlignData.t) (ps : list Z)
    (cs : list AlignData.t) :
  Forall (Z.le 0) ps →
  split self ps = Ok cs →
  cat (AlignData.seq <$> cs) = AlignData.seq self
  ∧ (String.length (AlignData.qual self) = String.length (AlignData.seq self) →
     cat (AlignData.qual <$> cs) = AlignData.qual self).
Proof using Type.
  intros Hps (mb & _ & _ & ->)%split_Ok_inv.
  pose proof (read_length_nonneg self) as Hn.
  destruct (clamped_positions_tile _ ps Hn Hps) as [Hnn Ht].
  assert (Hany : ∀ t, String.length t = String.length (AlignData.seq self) →
            cat ((λ iv, py_slice t iv.1 iv.2) <$> AlignData.intervals self ps) = t).
  { intros t Hlen. unfold AlignData.intervals.
    assert (Hnt : AlignData.read_length self = Z.of_nat (String.length t))
      by (unfold AlignData.read_length; by rewrite Hlen).
    rewrite Hnt in Ht, Hnn |- *.
    rewrite intervals_of_fmap in Ht.
    pose proof (cat_slices t _ 0 _ Ht ltac:(lia) ltac:(lia)) as Hcat.
    rewrite <- list_fmap_compose, py_slice_all in Hcat.
    etrans; [| exact Hcat]. f_equal.
    apply Forall_fmap_ext_1.
    eapply Forall_impl; [apply (intervals_of_Forall _ _ Hnn) |].
    intros [a b] [Ha Hb]. cbn in *. by apply py_slice_clamp. }
  split.
  - rewrite child_seqs. by apply Hany.
  - intros Hlen. etrans; [| exact (Hany _ Hlen)]. f_equal.
    rewrite fmap_imap, <- imap_const. by apply imap_ext.
Qed.

(** X10: cutting a piece out of a piece gives a piece of the original
    record: for bounds inside the first piece, the sequence and the
    quality of the second-level subread are the slices of the parent's at
    the bounds shifted by the first piece's start. *)
Theorem subread_of_subread (self child grandchild : AlignData.t)
    (a b c d : Z) (name1 name2 : string) (mi1 xc1 mi2 xc2 : bool)
    (idx1 idx2 : option (nat * nat)) (mb1 mb2 : option modified_bases_t) :
  0 ≤ a → a ≤ b → b ≤ Z.of_nat (String.length (AlignData.seq self)) →
  b ≤ Z.of_nat (String.length (AlignData.qual self)) →
  0 ≤ c → c ≤ d → d ≤ b - a →
  AlignData.get_subread MOD_TAGS self a b name1 mi1 xc1 idx1 mb1 = Ok child →
  AlignData.get_subread MOD_TAGS child c d name2 mi2 xc2 idx2 mb2 = Ok grandchild →
  AlignData.seq grandchild = py_slice (AlignData.seq self) (a + c) (a + d)
  ∧ AlignData.qual grandchild = py_slice (AlignData.qual self) (a + c) (a + d).
Proof using Type.
  intros Ha Hab Hb Hbq Hc Hcd Hd. unfold AlignData.get_subread.
  destruct (mod_tags _ a b mb1) as [mods1|e1]; [| done].
  cbn [bind]. intros [= <-].
  cbn [AlignData.seq AlignData.qual AlignData.make].
  destruct (mod_tags _ c d mb2) as [mods2|e2]; [| done].
  cbn [bind]. intros [= <-].
  cbn [AlignData.seq AlignData.qual AlignData.make].
  by rewrite !py_slice_py_slice.
Qed.

End Splitting.

(** ** Modification data across a split *)

Lemma pairs_within_cons (a b : Z) (p : Z * Z) (md : mod_data) :
  pairs_within a b (p :: md)
  = if in_subread a b p.1 then p :: pairs_within a b md else pairs_within a b md.
Proof. done. Qed.

Lemma pairs_within_empty (a : Z) (md : mod_data) : pairs_within a a md = [].
Proof.
  induction md as [|p md IH]; [done |].
  rewrite pairs_within_cons, IH. unfold in_subread.
  destruct (Z.leb_spec a p.1), (Z.ltb_spec p.1 a); cbn; try done; lia.
Qed.

Lemma pairs_within_elem (a b : Z) (md : mod_data) (p : Z * Z) :
  p ∈ pairs_within a b md ↔ p ∈ md ∧ a ≤ p.1 < b.
Proof.
  unfold pairs_within. rewrite !list_elem_of_In, filter_In.
  unfold in_subread. rewrite andb_true_iff, Z.leb_le, Z.ltb_lt. done.
Qed.

Lemma in_subread_adjacent (a b c o : Z) :
  a ≤ b → b ≤ c →
  in_subread a c o = in_subread a b o || in_subread b c o
  ∧ (in_subread a b o = true → in_subread b c o = false).
Proof.
  intros Hab Hbc. unfold in_subread.
  destruct (Z.leb_spec a o), (Z.ltb_spec o c), (Z.ltb_spec o b), (Z.leb_spec b o);
    cbn; split; try done; lia.
Qed.

Lemma pairs_within_adjacent_perm (a b c : Z) (md : mod_data) :
  a ≤ b → b ≤ c →
  pairs_within a b md ++ pairs_within b c md ≡ₚ pairs_within a c md.
Proof.
  intros Hab Hbc. induction md as [|p md IH]; [done |].
  rewrite !pairs_within_cons.
  destruct (in_subread_adjacent a b c p.1 Hab Hbc) as [-> Hexcl].
  destruct (in_subread a b p.1); cbn [orb].
  - rewrite Hexcl by done. cbn [app]. by rewrite IH.
  - destruct (in_subread b c p.1); [| done].
    by rewrite <- Permutation_middle, IH.
Qed.

Lemma pairs_within_adjacent_sorted (a b c : Z) (md : mod_data) :
  a ≤ b → b ≤ c → Sorted Z.le md.*1 →
  pairs_within a b md ++ pairs_within b c md = pairs_within a c md.
Proof.
  intros Hab Hbc Hs%(Sorted_StronglySorted _).
  induction md as [|p md IH]; [done |].
  rewrite fmap_cons in Hs. apply StronglySorted_cons in Hs as [Hp Hs].
  rewrite !pairs_within_cons.
  destruct (in_subread_adjacent a b c p.1 Hab Hbc) as [-> Hexcl].
  destruct (in_subread a b p.1) eqn:H1; cbn [orb].
  - rewrite Hexcl by done. cbn [app]. by rewrite IH.
  - destruct (in_subread b c p.1) eqn:H2; [| by apply IH].
    assert (pairs_within a b md = []) as Hnone.
    { apply elem_of_nil_inv. intros q [Hq Hr]%pairs_within_elem.
      rewrite Forall_forall in Hp.
      specialize (Hp q.1 (list_elem_of_fmap_2 fst _ _ Hq)).
      unfold in_subread in H2. apply andb_true_iff in H2 as [H2 _].
      apply Z.leb_le in H2. lia. }
    rewrite <- (IH Hs), Hnone. done.
Qed.

Lemma pairs_within_all (lo hi : Z) (md : mod_data) :
  Forall (λ p, lo ≤ p.1 < hi) md → pairs_within lo hi md = md.
Proof.
  induction 1 as [|p md Hp _ IH]; [done |].
  rewrite pairs_within_cons, IH. unfold in_subread.
  destruct (Z.leb_spec lo p.1), (Z.ltb_spec p.1 hi); cbn; try done; lia.
Qed.

Lemma tiles_pairs (md : mod_data) (ivs : list (Z * Z)) (lo hi : Z) :
  tiles lo hi ivs →
  mjoin ((λ iv, pairs_within iv.1 iv.2 md) <$> ivs) ≡ₚ pairs_within lo hi md
  ∧ (Sorted Z.le md.*1 →
     mjoin ((λ iv, pairs_within iv.1 iv.2 md) <$> ivs) = pairs_within lo hi md).
Proof.
  revert lo; induction ivs as [|[a b] ivs IH]; intros lo; cbn [tiles fst snd].
  - intros ->. by rewrite pairs_within_empty.
  - intros (-> & Hab & Ht). destruct (IH _ Ht) as [IHp IHe].
    pose proof (tiles_points _ _ _ Ht) as [Hbhi _].
    rewrite fmap_cons.
    change (mjoin (?x :: ?l)) with (x ++ mjoin l). cbn [fst snd]. split.
    + rewrite IHp. by apply pairs_within_adjacent_perm.
    + intros Hs. rewrite (IHe Hs). by apply pairs_within_adjacent_sorted.
Qed.

(** ** The delta encoding *)

Lemma deltas_from_counts (start : Z) (offsets : list Z) (indices : list nat)
    (counter : nat) :
  deltas_from start offsets indices counter
  = str_of_nat <$> delta_counts start offsets indices counter.
Proof.
  revert counter; induction indices as [|p indices IH]; intros counter; [done |].
  cbn [deltas_from delta_counts]. case_bool_decide; [| apply IH].
  rewrite fmap_cons. f_equal. apply IH.
Qed.

Lemma delta_counts_length (start : Z) (offsets : list Z) (indices : list nat)
    (counter : nat) :
  length (delta_counts start offsets indices counter)
  = length (filter (λ p, Z.of_nat p + start ∈ offsets) indices).
Proof.
  revert counter; induction indices as [|p indices IH]; intros counter; [done |].
  cbn [delta_counts]. case_bool_decide.
  - rewrite filter_cons_True by done. cbn [length]. f_equal. apply IH.
  - rewrite filter_cons_False by done. apply IH.
Qed.

Lemma decode_delta_counts (start : Z) (offsets : list Z) (indices skip : list nat) :
  decode_deltas (skip ++ indices) (delta_counts start offsets indices (length skip))
  = filter (λ p, Z.of_nat p + start ∈ offsets) indices.
Proof.
  revert skip; induction indices as [|p indices IH]; intros skip; [done |].
  cbn [delta_counts]. case_bool_decide.
  - rewrite filter_cons_True by done. cbn [decode_deltas].
    rewrite drop_app_length. f_equal. apply (IH []).
  - rewrite filter_cons_False by done.
    specialize (IH (skip ++ [p])).
    rewrite <- app_assoc, length_app, Nat.add_1_r in IH. exact IH.
Qed.

Lemma base_positions_from_bounds (i : nat) (s b : string) :
  Forall (le i) (base_positions_from i s b)
  ∧ StronglySorted lt (base_positions_from i s b).
Proof.
  revert i; induction s as [|c s IH]; intros i; [by split; constructor |].
  cbn [base_positions_from]. destruct (IH (S i)) as [Hge Hs].
  assert (Hgt : Forall (lt i) (base_positions_from (S i) s b)).
  { eapply Forall_impl; [exact Hge |]. intros; cbn in *; lia. }
  destruct (String.eqb _ b).
  - split; [| by constructor].
    constructor; [done |]. eapply Forall_impl; [exact Hgt |]. intros; cbn in *; lia.
  - split; [| done]. eapply Forall_impl; [exact Hgt |]. intros; cbn in *; lia.
Qed.

Lemma base_positions_from_elem (i : nat) (s b : string) (p : nat) :
  p ∈ base_positions_from i s b
  ↔ (i ≤ p)%nat ∧ ∃ c, String.get (p - i) s = Some c ∧ String (upper c) "" = b.
Proof.
  revert i; induction s as [|c s IH]; intros i.
  - cbn. rewrite elem_of_nil. split; [done |]. by intros (_ & c & [=] & _).
  - cbn [base_positions_from].
    assert (Hrec : p ∈ base_positions_from (S i) s b
                   ↔ (i < p)%nat ∧ ∃ c', String.get (p - i) (String c s) = Some c'
                                         ∧ String (upper c') "" = b).
    { rewrite IH. split.
      - intros (Hle & c' & Hget & Hb). split; [lia |]. exists c'. split; [| done].
        replace (p - i)%nat with (S (p - S i)) by lia. done.
      - intros (Hlt & c' & Hget & Hb). split; [lia |]. exists c'. split; [| done].
        replace (p - i)%nat with (S (p - S i)) in Hget by lia. done. }
    destruct (String.eqb_spec (String (upper c) "") b) as [Hb | Hb].
    + rewrite elem_of_cons, Hrec. split.
      * intros [-> | (Hlt & Hex)]; [| split; [lia | done]].
        split; [done |]. exists c. by rewrite Nat.sub_diag.
      * intros (Hle & c' & Hget & Hb').
        destruct (decide (p = i)) as [-> | Hne]; [by left | right].
        split; [lia |]. by exists c'.
    + rewrite Hrec. split.
      * intros (Hlt & Hex). split; [lia | done].
      * intros (Hle & c' & Hget & Hb').
        destruct (decide (p = i)) as [-> | Hne].
        -- rewrite Nat.sub_diag in Hget. cbn in Hget. by simplify_eq.
        -- split; [lia |]. by exists c'.
Qed.

Lemma StronglySorted_lt_NoDup (l : list nat) : StronglySorted lt l → NoDup l.
Proof.
  induction 1 as [|x l _ IH Hx]; constructor; [| done].
  intros Hin. rewrite Forall_forall in Hx. specialize (Hx _ Hin). lia.
Qed.

Lemma StronglySorted_Zlt_NoDup (l : list Z) : StronglySorted Z.lt l → NoDup l.
Proof.
  induction 1 as [|x l _ IH Hx]; constructor; [| done].
  intros Hin. rewrite Forall_forall in Hx. specialize (Hx _ Hin). lia.
Qed.

Lemma StronglySorted_filter {A : Type} (R : relation A) (P : A → Prop)
    `{∀ x, Decision (P x)} (l : list A) :
  StronglySorted R l → StronglySorted R (filter P l).
Proof.
  induction 1 as [|x l _ IH Hx]; [constructor |].
  destruct (decide (P x)).
  - rewrite filter_cons_True by done. constructor; [done |].
    rewrite Forall_forall in *. intros y [_ Hy]%list_elem_of_filter. by apply Hx.
  - by rewrite filter_cons_False.
Qed.

(** The occurrences of the base that the loop marks as modified, shifted
    to the parent's frame, against the selected offsets. *)
Lemma marked_offsets_perm (start : Z) (offsets : list Z) (positions : list nat) :
  NoDup positions → NoDup offsets →
  length (filter (λ p, Z.of_nat p + start ∈ offsets) positions) = length offsets →
  (λ p, Z.of_nat p + start) <$> filter (λ p, Z.of_nat p + start ∈ offsets) positions
  ≡ₚ offsets.
Proof.
  intros Hp Ho Hlen.
  assert (Hinj : Inj (=) (=) (λ p : nat, Z.of_nat p + start)) by (intros x y ?; lia).
  apply submseteq_length_Permutation.
  - apply NoDup_submseteq.
    + apply (NoDup_fmap_2 _). by apply NoDup_filter.
    + intros o (p & -> & [Hin _]%list_elem_of_filter)%list_elem_of_fmap. done.
  - rewrite length_fmap. lia.
Qed.

Lemma marked_offsets_length (start : Z) (offsets : list Z) (positions : list nat) :
  NoDup positions → NoDup offsets →
  (∀ o, o ∈ offsets → ∃ p, p ∈ positions ∧ o = Z.of_nat p + start) →
  length (filter (λ p, Z.of_nat p + start ∈ offsets) positions) = length offsets.
Proof.
  intros Hp Ho Hall.
  assert (Hinj : Inj (=) (=) (λ p : nat, Z.of_nat p + start)) by (intros x y ?; lia).
  apply Nat.le_antisymm.
  - rewrite <- (length_fmap (λ p, Z.of_nat p + start)).
    apply submseteq_length, NoDup_submseteq.
    + apply (NoDup_fmap_2 _). by apply NoDup_filter.
    + intros o (p & -> & [Hin _]%list_elem_of_filter)%list_elem_of_fmap. done.
  - rewrite <- (length_fmap (λ p, Z.of_nat p + start)).
    apply submseteq_length, NoDup_submseteq; [done |].
    intros o Ho'. destruct (Hall o Ho') as (p & Hpin & ->).
    apply list_elem_of_fmap. exists p. split; [done |].
    apply list_elem_of_filter. done.
Qed.

Lemma key_deltas_length (seq_ : string) (start end_ : Z) (k : mod_key)
    (md : mod_data) :
  length (key_deltas seq_ start end_ (k, md))
  = length (filter (λ p, Z.of_nat p + start ∈ (pairs_within start end_ md).*1)
              (base_positions seq_ (key_base k))).
Proof.
  unfold key_deltas. cbn [fst snd].
  by rewrite deltas_from_counts, length_fmap, delta_counts_length.
Qed.

Lemma StronglySorted_Zlt_le (l : list Z) :
  StronglySorted Z.lt l → StronglySorted Z.le l.
Proof.
  induction 1 as [|x l _ IH Hx]; constructor; [done |].
  eapply Forall_impl; [exact Hx |]. intros; cbn in *; lia.
Qed.

Lemma zip_shifted (start : Z) (pairs : list (Z * Z)) :
  zip ((λ o, o - start) <$> pairs.*1) pairs.*2
  = (λ p, (p.1 - start, p.2)) <$> pairs.
Proof. induction pairs as [|[o q] pairs IH]; [done |]. cbn. by f_equal. Qed.

Lemma upper_upper (c : ascii) : upper (upper c) = upper c.
Proof. by destruct c as [[] [] [] [] [] [] [] []]. Qed.

Lemma upper_str_length (s : string) : String.length (upper_str s) = String.length s.
Proof. induction s as [|c s IH]; [done |]. cbn. by rewrite IH. Qed.

Lemma upper_str_substring (n m : nat) (s : string) :
  String.substring n m (upper_str s) = upper_str (String.substring n m s).
Proof.
  revert n m; induction s as [|c s IH]; intros [|n] [|m];
    cbn [upper_str String.substring]; rewrite ?IH; done.
Qed.

Lemma upper_str_py_slice (s : string) (a b : Z) :
  py_slice (upper_str s) a b = upper_str (py_slice s a b).
Proof. unfold py_slice. by rewrite upper_str_length, upper_str_substring. Qed.

Lemma base_positions_from_upper (i : nat) (s b : string) :
  base_positions_from i (upper_str s) b = base_positions_from i s b.
Proof.
  revert i; induction s as [|c s IH]; intros i; [done |].
  cbn [upper_str base_positions_from]. by rewrite upper_upper, IH.
Qed.

Lemma item_ok_upper (s : string) (a b : Z) (item : mod_key * mod_data) :
  item_ok (upper_str s) a b item = item_ok s a b item.
Proof.
  unfold item_ok, counts_match, key_deltas, base_positions.
  by rewrite base_positions_from_upper.
Qed.

Lemma mod_tags_upper (s : string) (a b : Z) (mb : option modified_bases_t) :
  mod_tags (upper_str s) a b mb = mod_tags s a b mb.
Proof.
  destruct mb as [[|item items]|]; [done | | done].
  rewrite !mod_tags_spec by done.
  assert (Hok : ∀ l, forallb (item_ok (upper_str s) a b) l
                     = forallb (item_ok s a b) l).
  { induction l as [|x l IH]; [done |]. cbn. by rewrite item_ok_upper, IH. }
  assert (Hmm : ∀ l, mm_payload (upper_str s) a b l = mm_payload s a b l).
  { induction l as [|x l IH]; [done |]. cbn [mm_payload]. rewrite IH.
    unfold key_deltas, base_positions. by rewrite base_positions_from_upper. }
  by rewrite Hok, Hmm.
Qed.

Section Modifications.

Variable MOD_TAGS : gset string.

(** X11: for cut offsets inside the read, splitting neither loses nor
    repeats a modification call: the pairs selected for the children, taken
    together, are the key's pairs with an offset inside the read, each
    once; they come in the key's own order when its offsets are sorted. *)
Theorem modifications_partitioned (self : AlignData.t) (ps : list Z)
    (md : mod_data) :
  Forall (in_range (AlignData.read_length self)) ps →
  let selected :=
    mjoin ((λ iv, select_pairs md (select_idx iv.1 iv.2 md))
             <$> AlignData.intervals self ps) in
  selected ≡ₚ pairs_within 0 (AlignData.read_length self) md
  ∧ (Sorted Z.le md.*1 →
     selected = pairs_within 0 (AlignData.read_length self) md)
  ∧ (Forall (λ p, 0 ≤ p.1 < AlignData.read_length self) md →
     selected ≡ₚ md ∧ (Sorted Z.le md.*1 → selected = md)).
Proof using Type.
  intros Hps selected.
  pose proof (intervals_tile _ ps (read_length_nonneg self) Hps) as Ht.
  fold (AlignData.intervals self ps) in Ht.
  destruct (tiles_pairs md _ _ _ Ht) as [Hperm Heq].
  assert (Hsel : selected
                 = mjoin ((λ iv, pairs_within iv.1 iv.2 md)
                            <$> AlignData.intervals self ps)).
  { unfold selected. f_equal. apply list_fmap_ext.
    intros _ iv _. apply select_pairs_idx. }
  rewrite Hsel. split_and!; [done | done |].
  intros Hall. by rewrite (pairs_within_all _ _ _ Hall) in Hperm, Heq.
Qed.

(** X12: for a key whose selected offsets are pairwise different, the
    assertion of line 119 holds exactly when every selected offset points,
    in the child's sequence, at an occurrence of the key's canonical base
    in either letter case. *)
Theorem assertion_holds_iff (seq_ : string) (start end_ : Z) (k : mod_key)
    (md : mod_data) :
  NoDup (pairs_within start end_ md).*1 →
  counts_match seq_ start end_ (k, md) = true
  ↔ ∀ o, o ∈ (pairs_within start end_ md).*1 →
      ∃ c, String.get (Z.to_nat (o - start)) seq_ = Some c
           ∧ String (upper c) "" = key_base k.
Proof using Type.
  intros Hnd. unfold counts_match. rewrite bool_decide_eq_true.
  rewrite key_deltas_length. unfold key_probs. cbn [snd].
  rewrite (length_fmap snd), <- (length_fmap fst (pairs_within start end_ md)).
  destruct (base_positions_from_bounds 0 seq_ (key_base k)) as [_ Hs].
  apply StronglySorted_lt_NoDup in Hs. fold (base_positions seq_ (key_base k)) in Hs.
  assert (Hge : ∀ o, o ∈ (pairs_within start end_ md).*1 → start ≤ o).
  { intros o (p & -> & [_ ?]%pairs_within_elem)%list_elem_of_fmap. lia. }
  split.
  - intros Hlen o Ho.
    pose proof (marked_offsets_perm start _ _ Hs Hnd Hlen) as Hperm.
    rewrite <- Hperm in Ho.
    apply list_elem_of_fmap in Ho as (p & -> & [_ Hp]%list_elem_of_filter).
    apply base_positions_from_elem in Hp as (_ & c & Hget & Hb).
    exists c. split; [| done].
    replace (Z.to_nat (Z.of_nat p + start - start)) with (p - 0)%nat by lia. done.
  - intros Hall. apply marked_offsets_length; [done | done |].
    intros o Ho. destruct (Hall o Ho) as (c & Hget & Hb).
    exists (Z.to_nat (o - start)). split; [| specialize (Hge o Ho); lia].
    apply base_positions_from_elem. split; [lia |]. exists c.
    by rewrite Nat.sub_0_r.
Qed.

(** X13: when a key's selected offsets are strictly increasing and the
    assertion of line 119 holds, the deltas written for the key are the
    decimal numbers that, read back against the occurrences of the
    canonical base in the child's sequence, mark exactly the selected
    offsets moved to the child's frame, each with its own probability. *)
Theorem deltas_decode_to_offsets (seq_ : string) (start end_ : Z) (k : mod_key)
    (md : mod_data) :
  Sorted Z.lt (pairs_within start end_ md).*1 →
  counts_match seq_ start end_ (k, md) = true →
  ∃ ds, key_deltas seq_ start end_ (k, md) = str_of_nat <$> ds
        ∧ zip (Z.of_nat <$> decode_deltas (base_positions seq_ (key_base k)) ds)
            (key_probs start end_ (k, md))
          = (λ p, (p.1 - start, p.2)) <$> pairs_within start end_ md.
Proof using Type.
  intros Hsorted%(Sorted_StronglySorted _) Hok.
  set (offsets := (pairs_within start end_ md).*1) in *.
  set (positions := base_positions seq_ (key_base k)).
  exists (delta_counts start offsets positions 0). split.
  { unfold key_deltas. cbn [fst snd]. apply deltas_from_counts. }
  pose proof (decode_delta_counts start offsets positions []) as Hdec.
  cbn [app length] in Hdec. rewrite Hdec.
  destruct (base_positions_from_bounds 0 seq_ (key_base k)) as [_ Hs].
  fold (base_positions seq_ (key_base k)) in Hs. fold positions in Hs.
  unfold counts_match in Hok. apply bool_decide_eq_true in Hok.
  rewrite key_deltas_length in Hok. unfold key_probs in *. cbn [snd] in *.
  rewrite (length_fmap snd), <- (length_fmap fst (pairs_within start end_ md)) in Hok.
  fold offsets positions in Hok.
  pose proof (marked_offsets_perm start offsets positions
                (StronglySorted_lt_NoDup _ Hs)
                (StronglySorted_Zlt_NoDup _ Hsorted) Hok) as Hperm.
  assert (Heq : (λ p, Z.of_nat p + start)
                  <$> filter (λ p, Z.of_nat p + start ∈ offsets) positions
                = offsets).
  { apply (StronglySorted_unique Z.le); [| by apply StronglySorted_Zlt_le | done].
    apply StronglySorted_Zlt_le.
    apply (StronglySorted_fmap _ lt Z.lt); [intros x y ?; lia |].
    by apply StronglySorted_filter. }
  assert (Hz : Z.of_nat <$> filter (λ p, Z.of_nat p + start ∈ offsets) positions
               = (λ o, o - start) <$> offsets).
  { etrans; [| exact (f_equal (fmap (λ o, o - start)) Heq)].
    rewrite <- list_fmap_compose. apply list_fmap_ext. intros _ p _. cbn. lia. }
  rewrite Hz. apply zip_shifted.
Qed.

(** X14: the letter case of the sequence does not matter to the
    modification tags: a record and its upper-cased copy give subreads
    with the same tags, quality and name, or fail alike. *)
Theorem subread_tags_ignore_case (self self' : AlignData.t) (start end_ : Z)
    (name : string) (add_mi_tag add_xc_tag : bool)
    (subread_index : option (nat * nat))
    (modified_bases : option modified_bases_t) :
  AlignData.seq self' = upper_str (AlignData.seq self) →
  AlignData.qual self' = AlignData.qual self →
  AlignData.tags self' = AlignData.tags self →
  AlignData.name self' = AlignData.name self →
  match AlignData.get_subread MOD_TAGS self start end_ name add_mi_tag add_xc_tag
          subread_index modified_bases,
        AlignData.get_subread MOD_TAGS self' start end_ name add_mi_tag add_xc_tag
          subread_index modified_bases with
  | Ok c, Ok c' =>
      AlignData.seq c' = upper_str (AlignData.seq c)
      ∧ AlignData.qual c' = AlignData.qual c
      ∧ AlignData.tags c' = AlignData.tags c
      ∧ AlignData.name c' = AlignData.name c
  | Err e, Err e' => e = e'
  | _, _ => False
  end.
Proof using Type.
  intros Hseq Hqual Htags Hname. unfold AlignData.get_subread, AlignData.mi_tag.
  rewrite Hseq, Hqual, Htags, Hname, upper_str_py_slice, mod_tags_upper.
  by destruct (mod_tags _ start end_ modified_bases).
Qed.

End Modifications.

(** ** Reading the tags of a FASTQ comment *)

Lemma split_ws_words (s : string) :
  Forall (λ w, w ≠ "" ∧ no_space w = true) (split_ws s).
Proof.
  induction s as [|c s IH]; [constructor |].
  cbn [split_ws]. destruct (is_space c) eqn:Hc; [done |].
  assert (Hone : no_space (String c "") = true) by (cbn; by rewrite Hc).
  destruct s as [|c' s]; [by repeat constructor |].
  destruct (is_space c'); [by constructor |].
  destruct (split_ws (String c' s)) as [|w ws]; [by repeat constructor |].
  apply Forall_cons in IH as [[_ Hw] Hws].
  constructor; [| done]. split; [done |]. cbn [no_space]. by rewrite Hc, Hw.
Qed.

Lemma lstrip_word (w : string) : no_space w = true → lstrip w = w.
Proof. destruct w as [|c w]; [done |]. cbn. by destruct (is_space c). Qed.

Lemma rstrip_word (w : string) : no_space w = true → rstrip w = w.
Proof.
  induction w as [|c w IH]; [done |].
  cbn [no_space rstrip]. intros [Hc Hw]%andb_prop. rewrite (IH Hw).
  destruct w; [| done]. by destruct (is_space c).
Qed.

Lemma strip_word (w : string) : no_space w = true → strip w = w.
Proof. intros Hw. unfold strip. by rewrite lstrip_word, rstrip_word. Qed.

Lemma split_ws_word_space (w rest : string) (c : ascii) :
  w ≠ "" → no_space w = true → is_space c = true →
  split_ws (w +:+ String c rest) = w :: split_ws rest.
Proof.
  intros Hne Hw Hc. induction w as [|a w IH]; [done |].
  cbn [no_space] in Hw. apply andb_prop in Hw as [Ha Hw].
  apply negb_true_iff in Ha.
  rewrite app_String. cbn [split_ws]. rewrite Ha.
  destruct w as [|a' w].
  - rewrite app_empty_l, Hc. cbn [split_ws]. by rewrite Hc.
  - rewrite app_String. rewrite app_String in IH.
    cbn [no_space] in Hw. pose proof Hw as Hw'.
    apply andb_prop in Hw' as [Ha' _]. apply negb_true_iff in Ha'.
    rewrite Ha'. by rewrite IH.
Qed.

Lemma split_ws_word (w : string) :
  w ≠ "" → no_space w = true → split_ws w = [w].
Proof.
  intros Hne Hw. induction w as [|a w IH]; [done |].
  cbn [no_space] in Hw. apply andb_prop in Hw as [Ha Hw].
  apply negb_true_iff in Ha. cbn [split_ws]. rewrite Ha.
  destruct w as [|a' w]; [done |].
  cbn [no_space] in Hw. pose proof Hw as Hw'.
  apply andb_prop in Hw' as [Ha' _]. apply negb_true_iff in Ha'.
  rewrite Ha'. by rewrite IH.
Qed.

Lemma split_ws_join (ts : list string) :
  Forall (λ t, t ≠ "" ∧ no_space t = true) ts → split_ws (join tab ts) = ts.
Proof.
  induction 1 as [|t ts [Hne Hw] Hts IH]; [done |].
  destruct ts as [|t' ts]; [by apply split_ws_word |].
  change (join tab (t :: t' :: ts))
    with (t +:+ String "009" (join tab (t' :: ts))).
  rewrite split_ws_word_space by done. by rewrite IH.
Qed.

Lemma filter_all {A : Type} (f : A → bool) (l : list A) :
  Forall (λ x, f x = true) l → List.filter f l = l.
Proof. induction 1 as [|x l Hx _ IH]; [done |]. cbn. by rewrite Hx, IH. Qed.

Section Fastq.

Variable FASTQ_TAG_RE_match : string → bool.

Local Abbreviation from_fastq := (AlignData.from_fastq FASTQ_TAG_RE_match).

(** What [from_fastq] makes of a comment that is the tab-joined list of
    tag words: those words. *)
Lemma from_fastq_joined (name seq_ qual : string) (ts : list string) :
  Forall (tag_word FASTQ_TAG_RE_match) ts →
  from_fastq {| FastxRecord.name := name; FastxRecord.sequence := seq_;
                FastxRecord.quality := qual;
                FastxRecord.comment := Some (join tab ts) |}
  = AlignData.make name seq_ qual ts.
Proof using Type.
  intros Hts. unfold AlignData.from_fastq. cbn [FastxRecord.comment
    FastxRecord.name FastxRecord.sequence FastxRecord.quality].
  f_equal.
  assert (Hall : List.filter (λ item, FASTQ_TAG_RE_match (strip item))
                   (split_ws (join tab ts)) = ts).
  { rewrite split_ws_join
      by (eapply Forall_impl; [exact Hts |]; by intros t (? & ? & ?)).
    apply filter_all. eapply Forall_impl; [exact Hts |].
    intros t (_ & Hw & Hm). by rewrite strip_word. }
  destruct (join tab ts) eqn:Hj; [| done].
  by rewrite <- Hall.
Qed.

Lemma from_fastq_tag_words (record : FastxRecord.t) :
  Forall (tag_word FASTQ_TAG_RE_match) (AlignData.tags (from_fastq record)).
Proof using Type.
  unfold AlignData.from_fastq. cbn [AlignData.tags AlignData.make].
  destruct (FastxRecord.comment record) as [[|c comment]|]; [constructor | | constructor].
  apply Forall_forall. intros t Ht.
  apply list_elem_of_In, filter_In in Ht as [Ht Hm].
  apply list_elem_of_In in Ht.
  pose proof (split_ws_words (String c comment)) as Hw.
  rewrite Forall_forall in Hw. destruct (Hw t Ht) as [Hne Hns].
  split_and!; [done | done |]. by rewrite strip_word in Hm.
Qed.

(** X15: a record whose quality is not "*" and whose tags are non-empty,
    free of whitespace and accepted by the tag pattern survives the trip
    through FASTQ: to_fastq writes the tags, joined by tabs, as the
    comment of the header line, and from_fastq reads that comment back
    into the same tags. *)
Theorem fastq_tags_round_trip (self : AlignData.t) :
  AlignData.qual self ≠ "*" →
  Forall (tag_word FASTQ_TAG_RE_match) (AlignData.tags self) →
  let comment := join tab (AlignData.tags self) in
  AlignData.to_fastq self true
  = Ok ("@" +:+ AlignData.name self +:+ " " +:+ comment +:+ newline
          +:+ AlignData.seq self +:+ newline +:+ "+" +:+ newline
          +:+ AlignData.qual self +:+ newline)
  ∧ from_fastq {| FastxRecord.name := AlignData.name self;
                  FastxRecord.sequence := AlignData.seq self;
                  FastxRecord.quality := AlignData.qual self;
                  FastxRecord.comment := Some comment |}
    = AlignData.make (AlignData.name self) (AlignData.seq self)
        (AlignData.qual self) (AlignData.tags self).
Proof using Type.
  intros Hq Hts comment. split; [| by apply from_fastq_joined].
  unfold AlignData.to_fastq.
  by destruct (String.eqb_spec (AlignData.qual self) "*").
Qed.

(** X16: from_fastq keeps only non-empty words without whitespace that
    the tag pattern accepts, so reading a record, joining its tags by
    tabs into a comment and reading again changes nothing. *)
Theorem from_fastq_idempotent (record : FastxRecord.t) :
  Forall (tag_word FASTQ_TAG_RE_match) (AlignData.tags (from_fastq record))
  ∧ from_fastq
      {| FastxRecord.name := AlignData.name (from_fastq record);
         FastxRecord.sequence := AlignData.seq (from_fastq record);
         FastxRecord.quality := AlignData.qual (from_fastq record);
         FastxRecord.comment :=
           Some (join tab (AlignData.tags (from_fastq record))) |}
    = from_fastq record.
Proof using Type.
  split; [apply from_fastq_tag_words |].
  rewrite from_fastq_joined by apply from_fastq_tag_words. done.
Qed.

End Fastq.

(** ** Edge cases of splitting *)

Lemma sorted_of_Sorted (l : list Z) : Sorted Z.le l → sorted l = l.
Proof.
  intros H. apply (Sorted_unique Z.le); [apply sorted_Sorted | done |].
  apply sorted_Permutation.
Qed.

Lemma py_slice_negative_stop (s : string) (k : Z) :
  0 < k → k ≤ Z.of_nat (String.length s) →
  py_slice s 0 (- k) = py_slice s 0 (Z.of_nat (String.length s) - k)
  ∧ py_slice s (- k) (Z.of_nat (String.length s))
    = py_slice s (Z.of_nat (String.length s) - k) (Z.of_nat (String.length s)).
Proof.
  intros Hk Hle. unfold py_slice, slice_bound.
  destruct (Z.ltb_spec (- k) 0); [| lia].
  destruct (Z.ltb_spec (Z.of_nat (String.length s) - k) 0); [lia |].
  split; do 2 f_equal; lia.
Qed.

Section Edges.

Variable MOD_TAGS : gset string.
Variable pysam_modified_bases : AlignData.t → result modified_bases_t.

Local Abbreviation split := (AlignData.split MOD_TAGS pysam_modified_bases).

(** X17: to_fastq refuses a child exactly when the slice of the parent's
    quality that the child received is the one-character string "*",
    which is the no-quality sentinel but also an ordinary quality
    character. *)
Theorem child_fastq_fails_iff_star (self : AlignData.t) (ps : list Z)
    (cs : list AlignData.t) (i : nat) (c : AlignData.t) (with_tags : bool) :
  split self ps = Ok cs → cs !! i = Some c →
  ∃ start end_,
    AlignData.intervals self ps !! i = Some (start, end_)
    ∧ ((∃ e, AlignData.to_fastq c with_tags = Err e)
       ↔ py_slice (AlignData.qual self) start end_ = "*").
Proof using Type.
  intros Hsplit Hc.
  destruct (split_child_inv _ _ self ps cs i c Hsplit Hc)
    as (_ & mb & [start end_] & _ & Hiv & ->).
  exists start, end_. split; [done |].
  unfold AlignData.to_fastq. cbn [AlignData.qual expected_child AlignData.make fst snd].
  destruct (String.eqb_spec (py_slice (AlignData.qual self) start end_) "*").
  - split; [done | eauto].
  - split; [by intros [e ?] | done].
Qed.

(** X18: for cut offsets inside the read, the offsets split works with,
    given back to split as cut offsets, give the same result: passing the
    sorted offsets together with the two ends of the read changes
    nothing. *)
Theorem split_on_used_offsets (self : AlignData.t) (ps : list Z) :
  Forall (in_range (AlignData.read_length self)) ps →
  split self (split_positions (AlignData.read_length self) ps) = split self ps.
Proof using Type.
  intros Hps.
  destruct (split_positions_in_range _ ps (read_length_nonneg self) Hps)
    as (l & Hpos & Hlast & Hs & _).
  assert (Hfix : split_positions (AlignData.read_length self)
                   (split_positions (AlignData.read_length self) ps)
                 = split_positions (AlignData.read_length self) ps).
  { rewrite Hpos at 1. rewrite split_positions_shape by done.
    rewrite (sorted_of_Sorted _ Hs). cbn [head]. rewrite Hlast.
    rewrite !bool_decide_eq_false_2 by (intros ?; done).
    by rewrite app_nil_r. }
  unfold AlignData.split, AlignData.intervals. by rewrite Hfix.
Qed.

(** X19: for a record without modification tags, a single negative offset
    -k, with 0 < k <= len(sequence), is not refused: it counts from the
    end.  Split returns two children that hold the sequences the offset
    len(sequence) - k would give, while their Xc tags record the negative
    number.  For a record with modification tags the split may raise; when
    it returns, it returns two such children. *)
Theorem split_negative_offset (self : AlignData.t) (k : Z) :
  0 < k → k ≤ AlignData.read_length self →
  let two_children := λ cs : list AlignData.t,
    ∃ c1 c2,
      cs = [c1; c2]
      ∧ AlignData.seq c1
        = py_slice (AlignData.seq self) 0 (AlignData.read_length self - k)
      ∧ AlignData.seq c2
        = py_slice (AlignData.seq self) (AlignData.read_length self - k)
            (AlignData.read_length self)
      ∧ AlignData.xc_tag 0 (- k) (0, 2)%nat ∈ AlignData.tags c1
      ∧ AlignData.xc_tag (- k) (AlignData.read_length self) (1, 2)%nat
        ∈ AlignData.tags c2 in
  (AlignData.has_mods MOD_TAGS self = false →
   ∃ cs, split self [- k] = Ok cs ∧ two_children cs)
  ∧ (∀ cs, split self [- k] = Ok cs → two_children cs).
Proof using Type.
  intros Hk Hle two_children.
  assert (Hiv : AlignData.intervals self [- k]
                = [(0, - k); (- k, AlignData.read_length self)]).
  { unfold AlignData.intervals, split_positions.
    change (sorted [- k]) with [- k]. cbn [head].
    rewrite (bool_decide_eq_true_2 (Some (- k) ≠ Some 0)) by (intros [= ?]; lia).
    rewrite last_cons_cons, last_singleton.
    rewrite bool_decide_eq_true_2 by (intros [= ?]; lia). done. }
  assert (Htwo : ∀ mb,
    two_children (imap (expected_child MOD_TAGS self
                          (length (AlignData.intervals self [- k])) mb)
                    (AlignData.intervals self [- k]))).
  { intros mb. rewrite Hiv. cbn [imap length]. eexists _, _. split; [done |].
    cbn [AlignData.seq AlignData.tags expected_child AlignData.make fst snd].
    destruct (py_slice_negative_stop (AlignData.seq self) k Hk Hle) as [H1 H2].
    split_and!; [done | done | |];
      apply elem_of_app; right; apply elem_of_cons; right; by left. }
  split.
  - intros Hm. eexists. split; [by apply split_no_mods |]. apply Htwo.
  - intros cs (mb & _ & _ & ->)%split_Ok_inv. apply Htwo.
Qed.

End Edges.

(** ** The further properties at concrete reads *)

Lemma interior_cuts_child_count_witness :
  Forall (λ p, 0 < p < AlignData.read_length plain_read) [4; 2; 4]
  ∧ ∃ cs, AlignData.split sam_mod_tags modified_read_bases plain_read [4; 2; 4] = Ok cs
          ∧ length cs = 4%nat.
Proof.
  assert (Hps : Forall (λ p, 0 < p < AlignData.read_length plain_read) [4; 2; 4]).
  { repeat constructor. }
  split; [exact Hps |].
  destruct (AlignData.split sam_mod_tags modified_read_bases plain_read [4; 2; 4])
    as [cs|e] eqn:Hsplit.
  - exists cs. split; [done |].
    exact (interior_cuts_child_count _ _ plain_read [4; 2; 4] cs Hps Hsplit).
  - exfalso. vm_compute in Hsplit. discriminate.
Defined.

Lemma split_no_children_iff_witness :
  AlignData.split sam_mod_tags modified_read_bases empty_read [0] = Ok []
  ∧ ((@nil AlignData.t) = [] ↔ ([0] : list Z) = [0] ∧ AlignData.seq empty_read = "").
Proof.
  assert (Hsplit : AlignData.split sam_mod_tags modified_read_bases empty_read [0]
                   = Ok []) by by vm_compute.
  split; [exact Hsplit |].
  exact (split_no_children_iff _ _ empty_read [0] [] Hsplit).
Defined.

Lemma split_order_irrelevant_witness :
  [4; 2] ≡ₚ [2; 4]
  ∧ AlignData.split sam_mod_tags modified_read_bases plain_read [4; 2]
    = AlignData.split sam_mod_tags modified_read_bases plain_read [2; 4].
Proof.
  assert (Hperm : [4; 2] ≡ₚ [2; 4]) by apply Permutation_swap.
  split; [exact Hperm |].
  exact (split_order_irrelevant _ _ plain_read _ _ Hperm).
Defined.

Lemma children_names_distinct_witness :
  AlignData.split sam_mod_tags modified_read_bases plain_read [4]
  = Ok plain_read_children
  ∧ NoDup (AlignData.name <$> plain_read_children).
Proof.
  assert (Hsplit : AlignData.split sam_mod_tags modified_read_bases plain_read [4]
                   = Ok plain_read_children) by by vm_compute.
  split; [exact Hsplit |].
  exact (children_names_distinct _ _ plain_read [4] _ Hsplit).
Defined.

Lemma child_has_one_mi_tag_witness :
  ∃ cs c, AlignData.split sam_mod_tags modified_read_bases tagged_read [2] = Ok cs
          ∧ c ∈ cs
          ∧ filter (λ t, tag_key t = "MI") (AlignData.tags c) = ["MI:Z:read4"].
Proof.
  destruct (AlignData.split sam_mod_tags modified_read_bases tagged_read [2])
    as [[|c cs]|e] eqn:Hsplit.
  - exfalso. vm_compute in Hsplit. discriminate.
  - exists (c :: cs), c.
    assert (Hc : c ∈ c :: cs) by by left.
    split_and!; [done | exact Hc |].
    exact (child_has_one_mi_tag _ _ tagged_read [2] _ c Hsplit Hc).
  - exfalso. vm_compute in Hsplit. discriminate.
Defined.

Lemma children_of_plain_record_split_again_witness :
  ("MI" ∉ sam_mod_tags) ∧ ("Xc" ∉ sam_mod_tags)
  ∧ AlignData.has_mods sam_mod_tags plain_read = false
  ∧ AlignData.split sam_mod_tags modified_read_bases plain_read [4]
    = Ok plain_read_children
  ∧ ∀ c, c ∈ plain_read_children →
      AlignData.has_mods sam_mod_tags c = false
      ∧ ∀ qs, ∃ gcs,
          AlignData.split sam_mod_tags modified_read_bases c qs = Ok gcs
          ∧ length gcs = length (AlignData.intervals c qs).
Proof.
  assert (Hmi : "MI" ∉ sam_mod_tags) by (apply (bool_decide_unpack _); by vm_compute).
  assert (Hxc : "Xc" ∉ sam_mod_tags) by (apply (bool_decide_unpack _); by vm_compute).
  assert (Hm : AlignData.has_mods sam_mod_tags plain_read = false) by by vm_compute.
  assert (Hsplit : AlignData.split sam_mod_tags modified_read_bases plain_read [4]
                   = Ok plain_read_children) by by vm_compute.
  split_and!; [exact Hmi | exact Hxc | exact Hm | exact Hsplit |].
  intros c Hc.
  exact (children_of_plain_record_split_again _ _ plain_read [4] _ c
           Hmi Hxc Hm Hsplit Hc).
Defined.

Lemma children_keep_equal_lengths_witness :
  String.length (AlignData.seq plain_read) = String.length (AlignData.qual plain_read)
  ∧ AlignData.split sam_mod_tags modified_read_bases plain_read [4]
    = Ok plain_read_children
  ∧ ∀ c, c ∈ plain_read_children →
      String.length (AlignData.seq c) = String.length (AlignData.qual c).
Proof.
  assert (Hlen : String.length (AlignData.seq plain_read)
                 = String.length (AlignData.qual plain_read)) by done.
  assert (Hsplit : AlignData.split sam_mod_tags modified_read_bases plain_read [4]
                   = Ok plain_read_children) by by vm_compute.
  split_and!; [exact Hlen | exact Hsplit |].
  intros c Hc.
  exact (children_keep_equal_lengths _ _ plain_read [4] _ c Hlen Hsplit Hc).
Defined.

Lemma child_sequence_length_witness :
  Forall (in_range (AlignData.read_length plain_read)) [4]
  ∧ AlignData.split sam_mod_tags modified_read_bases plain_read [4]
    = Ok plain_read_children
  ∧ ∃ c start end_,
      plain_read_children !! 1%nat = Some c
      ∧ AlignData.intervals plain_read [4] !! 1%nat = Some (start, end_)
      ∧ Z.of_nat (String.length (AlignData.seq c)) = end_ - start
      ∧ start < end_.
Proof.
  assert (Hps : Forall (in_range (AlignData.read_length plain_read)) [4]).
  { repeat constructor; vm_compute; discriminate. }
  assert (Hsplit : AlignData.split sam_mod_tags modified_read_bases plain_read [4]
                   = Ok plain_read_children) by by vm_compute.
  split_and!; [exact Hps | exact Hsplit |].
  destruct (child_sequence_length _ _ plain_read [4] _ 1%nat _ Hps Hsplit eq_refl)
    as (start & end_ & Hiv & _ & _ & _ & Hlen & Hlt).
  eexists _, start, end_. split_and!; [done | exact Hiv | exact Hlen |].
  apply Hlt; [discriminate |]. apply NoDup_singleton.
Defined.

Lemma children_concatenate_to_parent_witness :
  Forall (Z.le 0) [10; 3]
  ∧ ∃ cs, AlignData.split sam_mod_tags modified_read_bases plain_read [10; 3] = Ok cs
          ∧ cat (AlignData.seq <$> cs) = AlignData.seq plain_read.
Proof.
  assert (Hps : Forall (Z.le 0) [10; 3]) by (repeat constructor; discriminate).
  split; [exact Hps |].
  destruct (AlignData.split sam_mod_tags modified_read_bases plain_read [10; 3])
    as [cs|e] eqn:Hsplit.
  - exists cs. split; [done |].
    exact (proj1 (children_concatenate_to_parent _ _ plain_read [10; 3] cs Hps Hsplit)).
  - exfalso. vm_compute in Hsplit. discriminate.
Defined.

Lemma subread_of_subread_witness :
  ∃ child grandchild,
    AlignData.get_subread sam_mod_tags plain_read 2 6 "piece" true true None None
    = Ok child
    ∧ AlignData.get_subread sam_mod_tags child 1 3 "part" true true None None
      = Ok grandchild
    ∧ AlignData.seq grandchild = py_slice (AlignData.seq plain_read) (2 + 1) (2 + 3).
Proof.
  destruct (AlignData.get_subread sam_mod_tags plain_read 2 6 "piece" true true
              None None) as [child|e] eqn:H1; [| exfalso; vm_compute in H1; discriminate].
  destruct (AlignData.get_subread sam_mod_tags child 1 3 "part" true true
              None None) as [grandchild|e] eqn:H2.
  - exists child, grandchild. split_and!; [done | done |].
    refine (proj1 (subread_of_subread sam_mod_tags plain_read child grandchild
                     2 6 1 3 _ _ _ _ _ _ _ _ _ _ _ _ _ _ _ _ _ H1 H2));
      vm_compute; discriminate.
  - exfalso. unfold AlignData.get_subread in H2. cbn in H2. discriminate.
Defined.

Lemma modifications_partitioned_witness :
  Forall (in_range (AlignData.read_length modified_read)) [5]
  ∧ mjoin ((λ iv, select_pairs [(2, 230); (7, 204)]
                    (select_idx iv.1 iv.2 [(2, 230); (7, 204)]))
             <$> AlignData.intervals modified_read [5])
    = [(2, 230); (7, 204)].
Proof.
  assert (Hps : Forall (in_range (AlignData.read_length modified_read)) [5]).
  { repeat constructor; vm_compute; discriminate. }
  split; [exact Hps |].
  destruct (modifications_partitioned modified_read [5] [(2, 230); (7, 204)] Hps)
    as (_ & _ & Hall).
  apply Hall.
  - repeat constructor; vm_compute; discriminate.
  - repeat constructor; vm_compute; discriminate.
Defined.

Lemma assertion_holds_iff_witness :
  NoDup (pairs_within 0 5 [(2, 230); (7, 204)]).*1
  ∧ counts_match "AACAT" 0 5 (Key3 "C" 0 (ModChar "m"), [(2, 230); (7, 204)]) = true
  ∧ ∃ c, String.get (Z.to_nat (2 - 0)) "AACAT" = Some c ∧ String (upper c) "" = "C".
Proof.
  assert (Hnd : NoDup (pairs_within 0 5 [(2, 230); (7, 204)]).*1).
  { apply (bool_decide_unpack _). by vm_compute. }
  assert (Hok : counts_match "AACAT" 0 5
                  (Key3 "C" 0 (ModChar "m"), [(2, 230); (7, 204)]) = true)
    by by vm_compute.
  split_and!; [exact Hnd | exact Hok |].
  apply (proj1 (assertion_holds_iff "AACAT" 0 5 (Key3 "C" 0 (ModChar "m"))
                  [(2, 230); (7, 204)] Hnd) Hok 2).
  apply (bool_decide_unpack _). by vm_compute.
Defined.

Lemma deltas_decode_to_offsets_witness :
  Sorted Z.lt (pairs_within 1 10 [(2, 230); (7, 204)]).*1
  ∧ counts_match "ACATGACAA" 1 10
      (Key3 "C" 0 (ModChar "m"), [(2, 230); (7, 204)]) = true
  ∧ ∃ ds, key_deltas "ACATGACAA" 1 10
            (Key3 "C" 0 (ModChar "m"), [(2, 230); (7, 204)])
          = str_of_nat <$> ds
          ∧ zip (Z.of_nat <$> decode_deltas (base_positions "ACATGACAA" "C") ds)
              [230; 204]
            = [(1, 230); (6, 204)].
Proof.
  assert (Hs : Sorted Z.lt (pairs_within 1 10 [(2, 230); (7, 204)]).*1).
  { repeat constructor. }
  assert (Hok : counts_match "ACATGACAA" 1 10
                  (Key3 "C" 0 (ModChar "m"), [(2, 230); (7, 204)]) = true)
    by by vm_compute.
  split_and!; [exact Hs | exact Hok |].
  exact (deltas_decode_to_offsets "ACATGACAA" 1 10 (Key3 "C" 0 (ModChar "m"))
           [(2, 230); (7, 204)] Hs Hok).
Defined.

Lemma subread_tags_ignore_case_witness :
  AlignData.seq modified_read = upper_str (AlignData.seq masked_read)
  ∧ ∃ c c',
      AlignData.get_subread sam_mod_tags masked_read 0 5 "read3:1_2" true true
        (Some (0, 2)%nat) (Some [(Key3 "C" 0 (ModChar "m"), [(2, 230); (7, 204)])])
      = Ok c
      ∧ AlignData.get_subread sam_mod_tags modified_read 0 5 "read3:1_2" true true
          (Some (0, 2)%nat) (Some [(Key3 "C" 0 (ModChar "m"), [(2, 230); (7, 204)])])
        = Ok c'
      ∧ AlignData.tags c' = AlignData.tags c.
Proof.
  assert (Hseq : AlignData.seq modified_read = upper_str (AlignData.seq masked_read))
    by done.
  split; [exact Hseq |].
  pose proof (subread_tags_ignore_case sam_mod_tags masked_read modified_read 0 5
                "read3:1_2" true true (Some (0, 2)%nat)
                (Some [(Key3 "C" 0 (ModChar "m"), [(2, 230); (7, 204)])])
                Hseq eq_refl eq_refl eq_refl) as H.
  destruct (AlignData.get_subread sam_mod_tags masked_read _ _ _ _ _ _ _)
    as [c|e] eqn:H1; [| exfalso; vm_compute in H1; discriminate].
  destruct (AlignData.get_subread sam_mod_tags modified_read _ _ _ _ _ _ _)
    as [c'|e'] eqn:H2; [| done].
  exists c, c'. by destruct H as (_ & _ & Htags & _).
Defined.

Lemma fastq_tags_round_trip_witness :
  AlignData.qual tagged_read ≠ "*"
  ∧ Forall (tag_word key_type_value_match) (AlignData.tags tagged_read)
  ∧ AlignData.from_fastq key_type_value_match
      {| FastxRecord.name := "read4"; FastxRecord.sequence := "ACGT";
         FastxRecord.quality := "IIII";
         FastxRecord.comment := Some (join tab ["RG:Z:lane1"; "MI:Z:read0"]) |}
    = tagged_read.
Proof.
  assert (Hq : AlignData.qual tagged_read ≠ "*") by discriminate.
  assert (Hts : Forall (tag_word key_type_value_match) (AlignData.tags tagged_read)).
  { repeat constructor; discriminate. }
  split_and!; [exact Hq | exact Hts |].
  exact (proj2 (fastq_tags_round_trip key_type_value_match tagged_read Hq Hts)).
Defined.

Lemma from_fastq_idempotent_witness :
  AlignData.tags (AlignData.from_fastq key_type_value_match commented_record)
  = ["RG:Z:lane1"; "MI:Z:read0"]
  ∧ AlignData.from_fastq key_type_value_match
      {| FastxRecord.name := "read4"; FastxRecord.sequence := "ACGT";
         FastxRecord.quality := "IIII";
         FastxRecord.comment := Some (join tab ["RG:Z:lane1"; "MI:Z:read0"]) |}
    = AlignData.from_fastq key_type_value_match commented_record.
Proof.
  split; [by vm_compute |].
  exact (proj2 (from_fastq_idempotent key_type_value_match commented_record)).
Defined.

Lemma child_fastq_fails_iff_star_witness :
  ∃ cs c,
    AlignData.split sam_mod_tags modified_read_bases star_read [1; 2] = Ok cs
    ∧ cs !! 1%nat = Some c
    ∧ AlignData.seq c = "C"
    ∧ ∃ e, AlignData.to_fastq c true = Err e.
Proof.
  destruct (AlignData.split sam_mod_tags modified_read_bases star_read [1; 2])
    as [cs|e] eqn:Hsplit; [| exfalso; vm_compute in Hsplit; discriminate].
  destruct (cs !! 1%nat) as [c|] eqn:Hc.
  - exists cs, c.
    destruct (child_fastq_fails_iff_star _ _ star_read [1; 2] cs 1%nat c true
                Hsplit Hc) as (start & end_ & Hiv & Hiff).
    injection Hiv as <- <-.
    split_and!; [done | done | |].
    + vm_compute in Hsplit. injection Hsplit as <-. by injection Hc as <-.
    + apply Hiff. by vm_compute.
  - exfalso. vm_compute in Hsplit. injection Hsplit as <-. discriminate.
Defined.

Lemma split_on_used_offsets_witness :
  Forall (in_range (AlignData.read_length plain_read)) [4]
  ∧ AlignData.split sam_mod_tags modified_read_bases plain_read [0; 4; 8]
    = AlignData.split sam_mod_tags modified_read_bases plain_read [4].
Proof.
  assert (Hps : Forall (in_range (AlignData.read_length plain_read)) [4]).
  { repeat constructor; vm_compute; discriminate. }
  split; [exact Hps |].
  exact (split_on_used_offsets _ _ plain_read [4] Hps).
Defined.

Lemma split_negative_offset_witness :
  0 < 3 ∧ 3 ≤ AlignData.read_length plain_read
  ∧ AlignData.has_mods sam_mod_tags plain_read = false
  ∧ ∃ c1 c2,
      AlignData.split sam_mod_tags modified_read_bases plain_read [- 3] = Ok [c1; c2]
      ∧ AlignData.seq c1 = py_slice (AlignData.seq plain_read) 0
                             (AlignData.read_length plain_read - 3)
      ∧ AlignData.xc_tag 0 (- 3) (0, 2)%nat ∈ AlignData.tags c1.
Proof.
  assert (H0 : 0 < 3) by done.
  assert (Hle : 3 ≤ AlignData.read_length plain_read) by (vm_compute; discriminate).
  assert (Hm : AlignData.has_mods sam_mod_tags plain_read = false) by by vm_compute.
  split_and!; [exact H0 | exact Hle | exact Hm |].
  destruct (split_negative_offset sam_mod_tags modified_read_bases plain_read 3 H0 Hle)
    as [Hplain _].
  destruct (Hplain Hm) as (cs & Hsplit & c1 & c2 & -> & Hs1 & _ & Hx1 & _).
  by exists c1, c2.
Defined.
